(** * Adventure Log: nearest-waypoint matcher and highlight overlays

    A shallow embedding of the computational core of the voyage map:
    - [haversine] and the nearest-waypoint scan of [handleFile]
      (src/components/WaypointUpload.tsx),
    - [isNightUTC], the night-watch segmentation of [buildMap] and the layer
      toggling of [setLayerVisibility] (src/components/AdventureMap.tsx),
    - the other handlers of the upload dialog, [buildMap] as a whole with the
      effects of the map component, and the handlers of the page and of the
      side panel that feed them (src/unnamed/part_000,
      src/components/SidePanel.tsx).

    WaypointUpload.tsx holds two revisions of the component; [handleFile] and
    [haversine] are the same in both, and the first revision is the one
    followed for [saveToWaypoint].

    JavaScript numbers are modelled by the real line extended with the two
    infinities and NaN, with exact arithmetic: rounding, overflow, underflow
    and the sign of zero are not represented, so the value [haversine] takes
    here is the exact value of the formula, which the doubles of the source
    only approximate.  The results are arranged accordingly:
    - the results on the scan (ties, reordering, the empty dataset, no match)
      are stated on the computed distances and proved from the strict
      comparison of the loop alone, whatever values the formula takes;
    - the result on exact matches uses two facts of the arithmetic, the
      distance of a finite point from itself is 0 and no distance is below 0,
      and is otherwise stated on the computed distances;
    - only the worked example bounds a value of the formula, in exact
      arithmetic, and the examples on a meridian compute one.
    Leaflet is modelled by what the components use of it: a layer group is
    its list of shapes and the stamp of the object, a map is the table of the
    layer groups added to it. *)

From Stdlib Require Import Ascii String Reals Machin Lra Lia ZArith Permutation.
From stdpp Require Import base gmap strings list sorting.

(** ** JavaScript numbers *)

Module JS.

Inductive number : Type :=
  | NaN
  | NegInf
  | Fin (r : R)
  | PosInf.

Definition Infinity : number := PosInf.

(** [x < y] on numbers: false as soon as one side is NaN. *)
Definition lt (x y : number) : bool :=
  match x, y with
  | NaN, _ | _, NaN => false
  | _, NegInf => false
  | NegInf, _ => true
  | PosInf, _ => false
  | Fin _, PosInf => true
  | Fin a, Fin b => if Rlt_dec a b then true else false
  end.

(** ToBoolean on a number: 0 and NaN are falsy. *)
Definition truthy (x : number) : bool :=
  match x with
  | NaN => false
  | Fin r => if Req_dec_T r 0 then false else true
  | NegInf | PosInf => true
  end.

Definition neg (x : number) : number :=
  match x with
  | NaN => NaN
  | NegInf => PosInf
  | Fin r => Fin (- r)
  | PosInf => NegInf
  end.

Definition add (x y : number) : number :=
  match x, y with
  | NaN, _ | _, NaN => NaN
  | PosInf, NegInf | NegInf, PosInf => NaN
  | PosInf, _ | _, PosInf => PosInf
  | NegInf, _ | _, NegInf => NegInf
  | Fin a, Fin b => Fin (a + b)
  end.

Definition sub (x y : number) : number := add x (neg y).

(** The infinity with the sign of [r], for [r] non-zero. *)
Definition signedInf (positive : bool) (r : R) : number :=
  if Rlt_dec 0 r then (if positive then PosInf else NegInf)
  else (if positive then NegInf else PosInf).

Definition mul (x y : number) : number :=
  match x, y with
  | NaN, _ | _, NaN => NaN
  | Fin a, Fin b => Fin (a * b)
  | PosInf, PosInf | NegInf, NegInf => PosInf
  | PosInf, NegInf | NegInf, PosInf => NegInf
  | PosInf, Fin r | Fin r, PosInf =>
      if Req_dec_T r 0 then NaN else signedInf true r
  | NegInf, Fin r | Fin r, NegInf =>
      if Req_dec_T r 0 then NaN else signedInf false r
  end.

(** Division; a zero divisor is taken to be +0. *)
Definition div (x y : number) : number :=
  match x, y with
  | NaN, _ | _, NaN => NaN
  | (PosInf | NegInf), (PosInf | NegInf) => NaN
  | Fin _, (PosInf | NegInf) => Fin 0
  | PosInf, Fin b => if Rlt_dec b 0 then NegInf else PosInf
  | NegInf, Fin b => if Rlt_dec b 0 then PosInf else NegInf
  | Fin a, Fin b =>
      if Req_dec_T b 0
      then (if Req_dec_T a 0 then NaN else signedInf true a)
      else Fin (a / b)
  end.

(** [x ** 2]. *)
Definition sqr (x : number) : number :=
  match x with
  | NaN => NaN
  | NegInf | PosInf => PosInf
  | Fin r => Fin (r * r)
  end.

Module Math.

Definition PI : number := Fin Rtrigo1.PI.

Definition sin (x : number) : number :=
  match x with
  | Fin r => Fin (Rtrigo_def.sin r)
  | _ => NaN
  end.

Definition cos (x : number) : number :=
  match x with
  | Fin r => Fin (Rtrigo_def.cos r)
  | _ => NaN
  end.

Definition sqrt (x : number) : number :=
  match x with
  | NaN | NegInf => NaN
  | PosInf => PosInf
  | Fin r => if Rlt_dec r 0 then NaN else Fin (R_sqrt.sqrt r)
  end.

Definition asin (x : number) : number :=
  match x with
  | Fin r =>
      if Rlt_dec r (-1) then NaN
      else if Rlt_dec 1 r then NaN
      else Fin (Ratan.asin r)
  | _ => NaN
  end.

End Math.

End JS.

Declare Scope js_scope.
Delimit Scope js_scope with js.
Bind Scope js_scope with JS.number.
Notation "x + y" := (JS.add x y) : js_scope.
Notation "x - y" := (JS.sub x y) : js_scope.
Notation "x * y" := (JS.mul x y) : js_scope.
Notation "x / y" := (JS.div x y) : js_scope.
Notation "x <? y" := (JS.lt x y) : js_scope.

Coercion JS.Fin : R >-> JS.number.

(** ** The track dataset *)

(** The module [@/lib/journey-data] is not part of the sources at hand: its
    [Waypoint] type is reconstructed from the fields the components read, and
    the [WAYPOINTS] table is a parameter of every function that scans it. *)
Module JourneyData.

Record Waypoint : Type := mkWaypoint {
  index : nat;
  name : string;
  lat : JS.number;
  lon : JS.number;
  time : string;
  speed : JS.number;
  cumDist : JS.number;
  leg : string;
  legColor : string;
}.

End JourneyData.

Abbreviation Waypoint := JourneyData.Waypoint.

(** ** Nearest-point matcher (WaypointUpload.tsx) *)

Definition haversine (lat1 lon1 lat2 lon2 : JS.number) : JS.number :=
  let R := JS.Fin 3440.065 in
  let dLat := ((lat2 - lat1) * JS.Math.PI / JS.Fin 180)%js in
  let dLon := ((lon2 - lon1) * JS.Math.PI / JS.Fin 180)%js in
  let a :=
    (JS.sqr (JS.Math.sin (dLat / JS.Fin 2)) +
     JS.Math.cos (lat1 * JS.Math.PI / JS.Fin 180) *
       JS.Math.cos (lat2 * JS.Math.PI / JS.Fin 180) *
       JS.sqr (JS.Math.sin (dLon / JS.Fin 2)))%js in
  (JS.Fin 2 * R * JS.Math.asin (JS.Math.sqrt a))%js.

(** One iteration of the scan: [best] and [bestDist] are the loop variables. *)
Definition scan_step (lat lon : JS.number)
    (acc : option Waypoint * JS.number) (wp : Waypoint)
    : option Waypoint * JS.number :=
  let '(best, bestDist) := acc in
  let d := haversine lat lon wp.(JourneyData.lat) wp.(JourneyData.lon) in
  if (d <? bestDist)%js then (Some wp, d) else (best, bestDist).

(** The loop over [WAYPOINTS], started from [best = null] and
    [bestDist = Infinity]. *)
Definition nearestWaypoint (lat lon : JS.number) (WAYPOINTS : list Waypoint)
    : option Waypoint * JS.number :=
  fold_left (scan_step lat lon) WAYPOINTS (None, JS.Infinity).

(** ** The photo-attachment flow (WaypointUpload.tsx) *)

Inductive Step : Type := upload | confirm_gps.

(** What [exifr.gps(file)] can do: throw, resolve to [undefined], or resolve
    to an object with a [latitude] and a [longitude]. *)
Inductive GpsOutcome : Type :=
  | GpsThrows
  | GpsUndefined
  | GpsFound (latitude longitude : JS.number).

(** Completion of the [try] block: normal, or by an exception. *)
Inductive completion (A : Type) : Type :=
  | Return (a : A)
  | Throw.
Arguments Return {A} a.
Arguments Throw {A}.

Section WaypointUpload.

Variable File : Type.
Variable createObjectURL : File -> string.
Variable exifr_gps : File -> GpsOutcome.
Variable WAYPOINTS : list Waypoint.

(** The component state, one field per [useState]. *)
Record State : Type := mkState {
  preview : option string;
  exifLocation : option (JS.number * JS.number);
  suggestedWp : option Waypoint;
  pendingFile : option File;
  step : Step;
}.

Definition resetState : State :=
  {| preview := None; exifLocation := None; suggestedWp := None;
     pendingFile := None; step := upload |}.

(** The body of [try { ... }] in [handleFile]. *)
Definition handleFile_try (file : File) (st : State) : completion State :=
  match exifr_gps file with
  | GpsThrows => Throw
  | GpsUndefined => Return st
  | GpsFound latitude longitude =>
      if JS.truthy latitude && JS.truthy longitude then
        let lat := latitude in
        let lon := longitude in
        let '(best, bestDist) := nearestWaypoint lat lon WAYPOINTS in
        Return {| preview := st.(preview);
                  exifLocation := Some (lat, lon);
                  suggestedWp := best;
                  pendingFile := st.(pendingFile);
                  step := confirm_gps |}
      else Return st
  end.

Definition handleFile (file : File) (st : State) : State :=
  let st1 := {| preview := Some (createObjectURL file);
                exifLocation := st.(exifLocation);
                suggestedWp := st.(suggestedWp);
                pendingFile := Some file;
                step := st.(step) |} in
  match handleFile_try file st1 with
  | Return st2 => st2
  | Throw => st1
  end.

(** The waypoints a save button of the rendered dialog can target, for the
    dialog opened on [waypoint]: "Use GPS waypoint" and "Keep selected" in the
    confirmation block, "Save to Waypoint" in the upload block. *)
Definition saveTargets (waypoint : Waypoint) (st : State) : list Waypoint :=
  match st.(step) with
  | confirm_gps =>
      match st.(suggestedWp), st.(preview) with
      | Some suggested, Some _ => [suggested; waypoint]
      | _, _ => []
      end
  | upload =>
      match st.(preview) with
      | Some _ => [waypoint]
      | None => []
      end
  end.

(** [saveToWaypoint], on the component state and the page's
    [waypointImages]. *)
Definition saveToWaypoint (targetWp : Waypoint)
    (st : State) (waypointImages : gmap nat string)
    : State * gmap nat string :=
  match st.(preview) with
  | None => (st, waypointImages)
  | Some url =>
      (resetState, <[targetWp.(JourneyData.index) := url]> waypointImages)
  end.

End WaypointUpload.

Arguments mkState {File}.
Arguments preview {File}.
Arguments exifLocation {File}.
Arguments suggestedWp {File}.
Arguments pendingFile {File}.
Arguments step {File}.
Arguments resetState {File}.
Arguments saveTargets {File}.
Arguments saveToWaypoint {File}.

(** ** Dates (the part of the built-in [Date] that [isNightUTC] uses) *)

Module JSDate.

Local Open Scope Z_scope.

Definition msPerHour : Z := 3600000.
Definition msPerDay : Z := 86400000.

(** Days between 1970-01-01 and the given day of the proleptic Gregorian
    calendar. *)
Definition daysFromCivil (y m d : Z) : Z :=
  let y' := if m <=? 2 then y - 1 else y in
  let era := y' / 400 in
  let yoe := y' - era * 400 in
  let mp := if m <=? 2 then m + 9 else m - 3 in
  let doy := (153 * mp + 2) / 5 + d - 1 in
  let doe := yoe * 365 + yoe / 4 - yoe / 100 + doy in
  era * 146097 + doe - 719468.

Definition isLeap (y : Z) : bool :=
  ((y mod 4 =? 0) && negb (y mod 100 =? 0)) || (y mod 400 =? 0).

Definition daysInMonth (y m : Z) : Z :=
  if m =? 2 then (if isLeap y then 29 else 28)
  else if (m =? 4) || (m =? 6) || (m =? 9) || (m =? 11) then 30
  else 31.

Definition digit (c : ascii) : option Z :=
  let n := Z.of_nat (nat_of_ascii c) in
  if (48 <=? n) && (n <=? 57) then Some (n - 48) else None.

(** Reads exactly [k] decimal digits. *)
Fixpoint digits (k : nat) (acc : Z) (s : string) : option (Z * string) :=
  match k with
  | O => Some (acc, s)
  | S k' =>
      match s with
      | String c s' =>
          match digit c with
          | Some d => digits k' (10 * acc + d) s'
          | None => None
          end
      | EmptyString => None
      end
  end.

Definition expect (c : ascii) (s : string) : option string :=
  match s with
  | String c' s' => if Ascii.eqb c c' then Some s' else None
  | EmptyString => None
  end.

(** The optional [:ss] and [.sss] of the time, in milliseconds. *)
Definition parseSeconds (s : string) : option (Z * string) :=
  match expect ":" s with
  | None => Some (0, s)
  | Some s1 =>
      '(ss, s2) ← digits 2 0 s1;
      if 59 <? ss then None else
      match expect "." s2 with
      | None => Some (ss * 1000, s2)
      | Some s3 =>
          '(ms, s4) ← digits 3 0 s3;
          Some (ss * 1000 + ms, s4)
      end
  end.

(** The time-zone designator, in minutes east of Greenwich; nothing may
    follow it. *)
Definition parseOffset (s : string) : option Z :=
  match s with
  | String "Z" EmptyString => Some 0
  | String sign s1 =>
      sgn ← (if Ascii.eqb sign "+" then Some 1
             else if Ascii.eqb sign "-" then Some (-1) else None);
      '(hh, s2) ← digits 2 0 s1;
      s3 ← expect ":" s2;
      '(mm, s4) ← digits 2 0 s3;
      match s4 with
      | EmptyString =>
          if (23 <? hh) || (59 <? mm) then None
          else Some (sgn * (hh * 60 + mm))
      | _ => None
      end
  | EmptyString => None
  end.

(** The date-time strings [YYYY-MM-DDTHH:mm(:ss(.sss)?)?] followed by [Z] or
    [±HH:mm], with every field in range: the complete forms of the ECMAScript
    date-time string format, whose time value does not depend on the host. *)
Definition parseISO (s : string) : option Z :=
  '(y, s) ← digits 4 0 s;
  s ← expect "-" s;
  '(m, s) ← digits 2 0 s;
  s ← expect "-" s;
  '(d, s) ← digits 2 0 s;
  s ← expect "T" s;
  '(hh, s) ← digits 2 0 s;
  s ← expect ":" s;
  '(mm, s) ← digits 2 0 s;
  '(ms, s) ← parseSeconds s;
  off ← parseOffset s;
  if (m <? 1) || (12 <? m) || (d <? 1) || (daysInMonth y m <? d)
     || (23 <? hh) || (59 <? mm)
  then None
  else Some (daysFromCivil y m d * msPerDay
             + hh * msPerHour + mm * 60000 + ms - off * 60000).

(** [HourFromTime(t)]. *)
Definition HourFromTime (t : Z) : Z := (t / msPerHour) mod 24.

Section Host.

(** What the host's [Date] constructor makes of any other string (a form
    without time zone, a non-standard format, a field out of range): a time
    value, or [None] for an invalid date. *)
Variable hostParse : string -> option Z.

(** The time value of [new Date(s)]; [None] is NaN. *)
Definition parse (s : string) : option Z :=
  match parseISO s with
  | Some t => Some t
  | None => hostParse s
  end.

(** [new Date(s).getUTCHours()]; [None] is NaN. *)
Definition getUTCHours (s : string) : option Z :=
  HourFromTime <$> parse s.

End Host.

End JSDate.

(** ** Highlight overlays (AdventureMap.tsx) *)

Definition LatLng : Type := JS.number * JS.number.

(** What is drawn into a layer group: only the geometry is kept, not the
    styling options. *)
Inductive Shape : Type :=
  | Polyline (latlngs : list LatLng)
  | Marker (latlng : LatLng).

(** A Leaflet layer group: its children, and the stamp that identifies the
    object ([L.Util.stamp]). *)
Record LayerGroup : Type := mkLayerGroup {
  stamp : positive;
  shapes : list Shape;
}.

Record HighlightState : Type := mkHighlightState {
  nightWatch : bool;
  topSpeed : bool;
  fastest6h : bool;
  fish : bool;
  storm : bool;
  thursdayIsland : bool;
  diving : bool;
  cairns : bool;
}.

Record HighlightEvent : Type := mkHighlightEvent {
  ev_lat : JS.number;
  ev_lon : JS.number;
  ev_label : string;
  ev_color : string;
}.

Definition HIGHLIGHT_EVENTS : gmap string HighlightEvent :=
  list_to_map
    [ ("fish", mkHighlightEvent (JS.Fin (-10.938)) (JS.Fin 132.825)
                 "Spanish Mackerel!" "#f5c84a");
      ("storm", mkHighlightEvent (JS.Fin (-16.21)) (JS.Fin 145.51)
                  "Severe Thunderstorm" "#a855f7");
      ("thursdayIsland", mkHighlightEvent (JS.Fin (-10.587)) (JS.Fin 142.217)
                           "Thursday Island" "#3ec9f5");
      ("diving", mkHighlightEvent (JS.Fin (-15.629)) (JS.Fin 145.489)
                   "Malcolm Patch Reef" "#2ee8a8");
      ("cairns", mkHighlightEvent (JS.Fin (-16.917)) (JS.Fin 145.782)
                   "Arrived in Cairns" "#f07850") ].

(** The two precomputed records of [@/lib/journey-data], each possibly
    [null]. *)
Record TopSpeed : Type := mkTopSpeed {
  fromLat : JS.number;
  fromLon : JS.number;
  toLat : JS.number;
  toLon : JS.number;
  ts_speed : JS.number;
}.

Record Fastest : Type := mkFastest {
  fromIdx : nat;
  toIdx : nat;
  f_speed : JS.number;
}.

Section NightWatch.

Variable hostParse : string -> option Z.

Definition isNightUTC (isoTime : string) : bool :=
  match JSDate.getUTCHours hostParse isoTime with
  | Some h => (8 <=? h)%Z && (h <? 21)%Z
  | None => false
  end.

(** The night-watch loop of [buildMap].  [nightSegment] is the run being
    collected and [drawn] the polylines added to the layer so far.  What is
    pushed for the waypoint at position [i] is a parameter: the source pushes
    [[wp.lat, wp.lon]]; pushing the position itself records which waypoints a
    segment is made of. *)
Fixpoint night_loop {A : Type} (payload : nat -> Waypoint -> A) (i : nat)
    (WAYPOINTS : list Waypoint) (nightSegment : list A)
    (drawn : list (list A)) : list A * list (list A) :=
  match WAYPOINTS with
  | [] => (nightSegment, drawn)
  | wp :: rest =>
      if isNightUTC wp.(JourneyData.time) then
        night_loop payload (S i) rest (nightSegment ++ [payload i wp]) drawn
      else
        night_loop payload (S i) rest []
          (if (1 <? length nightSegment)%nat
           then drawn ++ [nightSegment] else drawn)
  end.

Definition nightRuns {A : Type} (payload : nat -> Waypoint -> A)
    (WAYPOINTS : list Waypoint) : list (list A) :=
  let '(nightSegment, drawn) := night_loop payload 0 WAYPOINTS [] [] in
  if (1 <? length nightSegment)%nat then drawn ++ [nightSegment] else drawn.

Definition latlng (wp : Waypoint) : LatLng :=
  (wp.(JourneyData.lat), wp.(JourneyData.lon)).

(** The polylines of the night-watch layer. *)
Definition nightWatchSegments (WAYPOINTS : list Waypoint)
    : list (list LatLng) :=
  nightRuns (fun _ wp => latlng wp) WAYPOINTS.

(** The same runs, as positions in [WAYPOINTS]. *)
Definition nightWatchPositions (WAYPOINTS : list Waypoint)
    : list (list nat) :=
  nightRuns (fun i _ => i) WAYPOINTS.

Variable WAYPOINTS : list Waypoint.
Variable TOP_SPEED_1H : option TopSpeed.
Variable FASTEST_6H : option Fastest.

Definition nightWatchShapes : list Shape :=
  Polyline <$> nightWatchSegments WAYPOINTS.

Definition topSpeedShapes : list Shape :=
  match TOP_SPEED_1H with
  | Some r =>
      let midLat := ((r.(fromLat) + r.(toLat)) / JS.Fin 2)%js in
      let midLon := ((r.(fromLon) + r.(toLon)) / JS.Fin 2)%js in
      [ Polyline [ (r.(fromLat), r.(fromLon)); (r.(toLat), r.(toLon)) ];
        Marker (midLat, midLon) ]
  | None => []
  end.

(** [WAYPOINTS.slice(from, to)] for non-negative integers. *)
Definition slice {A : Type} (l : list A) (from to : nat) : list A :=
  take (to - from) (drop from l).

Definition fastest6hShapes : list Shape :=
  match FASTEST_6H with
  | Some r =>
      let segPts := latlng <$> slice WAYPOINTS r.(fromIdx) (r.(toIdx) + 1) in
      Polyline segPts ::
        (if (0 <? length segPts)%nat then
           match segPts !! (length segPts / 2)%nat with
           | Some mid => [ Marker mid ]
           | None => []
           end
         else [])
  | None => []
  end.

(** [buildEventLayer(key)]: the children of the layer. *)
Definition buildEventLayer (key : string) : list Shape :=
  match HIGHLIGHT_EVENTS !! key with
  | None => []
  | Some ev => [ Marker (ev.(ev_lat), ev.(ev_lon)) ]
  end.

(** The part of [buildMap] that fills [layersRef.current] with the eight
    highlight layers; [next] is the first unused stamp. *)
Definition buildHighlightLayers (next : positive)
    (layers : gmap string LayerGroup) : gmap string LayerGroup :=
  let layers := <["nightWatch" := mkLayerGroup next nightWatchShapes]> layers in
  let layers := <["topSpeed" := mkLayerGroup (next + 1) topSpeedShapes]> layers in
  let layers := <["fastest6h" := mkLayerGroup (next + 2) fastest6hShapes]> layers in
  let layers := <["fish" := mkLayerGroup (next + 3) (buildEventLayer "fish")]> layers in
  let layers := <["storm" := mkLayerGroup (next + 4) (buildEventLayer "storm")]> layers in
  let layers := <["thursdayIsland" :=
                    mkLayerGroup (next + 5) (buildEventLayer "thursdayIsland")]> layers in
  let layers := <["diving" := mkLayerGroup (next + 6) (buildEventLayer "diving")]> layers in
  <["cairns" := mkLayerGroup (next + 7) (buildEventLayer "cairns")]> layers.

End NightWatch.

(** *** Layer visibility *)

(** The layers currently on the Leaflet map ([map._layers]), by stamp. *)
Definition hasLayer (map : gmap positive LayerGroup) (layer : LayerGroup) : bool :=
  bool_decide (is_Some (map !! layer.(stamp))).

Definition addLayer (map : gmap positive LayerGroup) (layer : LayerGroup)
    : gmap positive LayerGroup :=
  if hasLayer map layer then map else <[layer.(stamp) := layer]> map.

Definition removeLayer (map : gmap positive LayerGroup) (layer : LayerGroup)
    : gmap positive LayerGroup :=
  delete layer.(stamp) map.

Section LayerVisibility.

(** [layersRef.current]. *)
Variable layers : gmap string LayerGroup.

Definition toggleLayer (map : gmap positive LayerGroup)
    (key : string) (on : bool) : gmap positive LayerGroup :=
  match layers !! key with
  | None => map
  | Some layer => if on then addLayer map layer else removeLayer map layer
  end.

Definition setLayerVisibility (map : gmap positive LayerGroup)
    (hs : HighlightState) : gmap positive LayerGroup :=
  let map := toggleLayer map "nightWatch" hs.(nightWatch) in
  let map := toggleLayer map "topSpeed" hs.(topSpeed) in
  let map := toggleLayer map "fastest6h" hs.(fastest6h) in
  let map := toggleLayer map "fish" hs.(fish) in
  let map := toggleLayer map "storm" hs.(storm) in
  let map := toggleLayer map "thursdayIsland" hs.(thursdayIsland) in
  let map := toggleLayer map "diving" hs.(diving) in
  toggleLayer map "cairns" hs.(cairns).

End LayerVisibility.

(** The highlight keys, their names in [layersRef.current] and their flags in
    the toggle set. *)
Inductive HighlightKey : Type :=
  | KNightWatch | KTopSpeed | KFastest6h | KFish | KStorm
  | KThursdayIsland | KDiving | KCairns.

#[global] Instance HighlightKey_eq_dec : EqDecision HighlightKey.
Proof. solve_decision. Defined.

Definition highlightKeys : list HighlightKey :=
  [ KNightWatch; KTopSpeed; KFastest6h; KFish; KStorm;
    KThursdayIsland; KDiving; KCairns ].

Definition keyName (k : HighlightKey) : string :=
  match k with
  | KNightWatch => "nightWatch"
  | KTopSpeed => "topSpeed"
  | KFastest6h => "fastest6h"
  | KFish => "fish"
  | KStorm => "storm"
  | KThursdayIsland => "thursdayIsland"
  | KDiving => "diving"
  | KCairns => "cairns"
  end.

Definition flag (hs : HighlightState) (k : HighlightKey) : bool :=
  match k with
  | KNightWatch => hs.(nightWatch)
  | KTopSpeed => hs.(topSpeed)
  | KFastest6h => hs.(fastest6h)
  | KFish => hs.(fish)
  | KStorm => hs.(storm)
  | KThursdayIsland => hs.(thursdayIsland)
  | KDiving => hs.(diving)
  | KCairns => hs.(cairns)
  end.

(** ** Auxiliary notions used in the statements *)

(** The distance of a waypoint from the query, as the scan computes it. *)
Definition dist (lat lon : JS.number) (wp : Waypoint) : JS.number :=
  haversine lat lon wp.(JourneyData.lat) wp.(JourneyData.lon).

(** The argument of the square root in [haversine], on finite inputs. *)
Definition hav_arg (lat1 lon1 lat2 lon2 : R) : R :=
  (sin ((lat2 + - lat1) * PI / 180 / 2) * sin ((lat2 + - lat1) * PI / 180 / 2)
   + cos (lat1 * PI / 180) * cos (lat2 * PI / 180)
     * (sin ((lon2 + - lon1) * PI / 180 / 2)
        * sin ((lon2 + - lon1) * PI / 180 / 2)))%R.

(** [Number.EPSILON]. *)
Definition Number_EPSILON : R := (/ 2 ^ 52)%R.

(** Two computed distances that are finite and differ by at most [eps]. *)
Definition equidistantWithin (eps : R) (x y : JS.number) : Prop :=
  exists a b : R, x = JS.Fin a /\ y = JS.Fin b /\ (Rabs (a - b) <= eps)%R.

(** A waypoint at the given position and instant, for the examples. *)
Definition waypointAt (i : nat) (phi lam : R) (t : string) : Waypoint :=
  JourneyData.mkWaypoint i "" (JS.Fin phi) (JS.Fin lam) t
    (JS.Fin 0) (JS.Fin 0) "" "".

(** What the night-watch loop draws for a collected run. *)
Definition flush {A : Type} (nightSegment : list A) : list (list A) :=
  if (1 <? length nightSegment)%nat then [nightSegment] else [].

(** The polylines drawn from position [i] on, with [nightSegment] already
    collected. *)
Definition runsFrom {A : Type} (hostParse : string -> option Z)
    (payload : nat -> Waypoint -> A) (i : nat) (wps : list Waypoint)
    (nightSegment : list A) : list (list A) :=
  let r := night_loop hostParse payload i wps nightSegment [] in
  r.2 ++ flush r.1.

(** The night runs with each waypoint paired with its position. *)
Definition nightWatchIndexed (hostParse : string -> option Z)
    (wps : list Waypoint) : list (list (nat * Waypoint)) :=
  nightRuns hostParse (fun i wp => (i, wp)) wps.

(** The instant of a waypoint. *)
Definition timeOf (hostParse : string -> option Z) (wp : Waypoint) : option Z :=
  JSDate.parse hostParse wp.(JourneyData.time).

(** Waypoints stored in strictly increasing time order. *)
Definition timeOrdered (hostParse : string -> option Z) (wps : list Waypoint)
    : Prop :=
  forall (i j : nat) (wi wj : Waypoint) (ti tj : Z),
    (i < j)%nat -> wps !! i = Some wi -> wps !! j = Some wj ->
    timeOf hostParse wi = Some ti -> timeOf hostParse wj = Some tj ->
    (ti < tj)%Z.

(** The dataset of the night-watch example: a day, two nights, a day. *)
Definition exampleTrack : list Waypoint :=
  [ waypointAt 0 (-12.40) 130.80 "2026-02-11T00:00:00Z";
    waypointAt 1 (-12.10) 131.20 "2026-02-11T19:00:00Z";
    waypointAt 2 (-12.05) 131.30 "2026-02-11T20:00:00Z";
    waypointAt 3 (-11.90) 131.60 "2026-02-11T23:00:00Z" ].

(** A host that rejects every string left to it. *)
Definition strictHost : string -> option Z := fun _ => None.

(** Whether the layer registered under a highlight key is on the map. *)
Definition isActive (layers : gmap string LayerGroup)
    (map : gmap positive LayerGroup) (k : HighlightKey) : bool :=
  match layers !! keyName k with
  | Some layer => hasLayer map layer
  | None => false
  end.

(** The highlight keys whose layer is on the map: what the map shows of the
    toggle set after [setLayerVisibility]. *)
Definition activeOverlayLayers (layers : gmap string LayerGroup)
    (map : gmap positive LayerGroup) : list HighlightKey :=
  List.filter (isActive layers map) highlightKeys.

(** The geometry the map renders for a highlight key. *)
Definition renderedShapes (layers : gmap string LayerGroup)
    (map : gmap positive LayerGroup) (k : HighlightKey) : list Shape :=
  match layers !! keyName k with
  | Some layer => if hasLayer map layer then layer.(shapes) else []
  | None => []
  end.

(** Whether a layer is registered under a highlight key. *)
Definition registered (layers : gmap string LayerGroup) (k : HighlightKey)
    : bool :=
  bool_decide (is_Some (layers !! keyName k)).

(** Layer groups registered under different highlight keys are different
    objects. *)
Definition stampsDistinct (layers : gmap string LayerGroup) : Prop :=
  forall (k k' : HighlightKey) (l l' : LayerGroup),
    layers !! keyName k = Some l -> layers !! keyName k' = Some l' ->
    l.(stamp) = l'.(stamp) -> k = k'.

Definition allFlags (b : bool) : HighlightState :=
  mkHighlightState b b b b b b b b.

(** The geometry [buildMap] precomputes for each highlight key, and the stamp
    of the layer group it is drawn into. *)
Definition highlightShapes (hostParse : string -> option Z)
    (WAYPOINTS : list Waypoint) (TOP_SPEED_1H : option TopSpeed)
    (FASTEST_6H : option Fastest) (k : HighlightKey) : list Shape :=
  match k with
  | KNightWatch => nightWatchShapes hostParse WAYPOINTS
  | KTopSpeed => topSpeedShapes TOP_SPEED_1H
  | KFastest6h => fastest6hShapes WAYPOINTS FASTEST_6H
  | KFish | KStorm | KThursdayIsland | KDiving | KCairns =>
      buildEventLayer (keyName k)
  end.

Definition keyStamp (next : positive) (k : HighlightKey) : positive :=
  match k with
  | KNightWatch => next
  | KTopSpeed => next + 1
  | KFastest6h => next + 2
  | KFish => next + 3
  | KStorm => next + 4
  | KThursdayIsland => next + 5
  | KDiving => next + 6
  | KCairns => next + 7
  end.

(** ** The other handlers of the photo-attachment flow (WaypointUpload.tsx)
    and of the page *)

Section UploadEvents.

Variable File : Type.
(** [file.type], the MIME type the browser reports. *)
Variable fileType : File -> string.
Variable createObjectURL : File -> string.
Variable exifr_gps : File -> GpsOutcome.
Variable WAYPOINTS : list Waypoint.



End UploadEvents.

(** [handleHighlightChange] of the page: [{ ...prev, [key]: value }]. *)
Definition handleHighlightChange (key : HighlightKey) (value : bool)
    (prev : HighlightState) : HighlightState :=
  {| nightWatch := if key is KNightWatch then value else prev.(nightWatch);
     topSpeed := if key is KTopSpeed then value else prev.(topSpeed);
     fastest6h := if key is KFastest6h then value else prev.(fastest6h);
     fish := if key is KFish then value else prev.(fish);
     storm := if key is KStorm then value else prev.(storm);
     thursdayIsland :=
       if key is KThursdayIsland then value else prev.(thursdayIsland);
     diving := if key is KDiving then value else prev.(diving);
     cairns := if key is KCairns then value else prev.(cairns) |}.

(** The "Show All" and "Hide All" buttons of the side panel: one
    [onHighlightChange] per key of the toggle set. *)
Definition setAllHighlights (value : bool) (highlights : HighlightState)
    : HighlightState :=
  fold_left (fun hs k => handleHighlightChange k value hs)
    highlightKeys highlights.

(** [handleImageSaved] of the page. *)
Definition handleImageSaved (waypointIdx : nat) (imageUrl : string)
    (prev : gmap nat string) : gmap nat string :=
  <[waypointIdx := imageUrl]> prev.

(** The listener of the [wp-upload] event, on [selectedWaypoint]; [detail] is
    the index the popup button dispatched. *)
Definition wpUploadHandler (WAYPOINTS : list Waypoint) (detail : nat)
    (selectedWaypoint : option Waypoint) : option Waypoint :=
  match WAYPOINTS !! detail with
  | Some wp => Some wp
  | None => selectedWaypoint
  end.

(** What the popup button of a waypoint marker dispatches. *)
Definition popupDetail (wp : Waypoint) : nat := wp.(JourneyData.index).

(** ** The rest of the map component (AdventureMap.tsx) *)

(** [x >= y] on numbers: false as soon as one side is NaN. *)
Definition JS_ge (x y : JS.number) : bool :=
  match x, y with
  | JS.NaN, _ | _, JS.NaN => false
  | _, JS.NegInf => true
  | JS.NegInf, _ => false
  | JS.PosInf, _ => true
  | JS.Fin _, JS.PosInf => false
  | JS.Fin a, JS.Fin b => if Rle_dec b a then true else false
  end.

(** [setWaypointLayerVisibility], on [waypointLayerRef.current]. *)
Definition setWaypointLayerVisibility (waypointLayer : option LayerGroup)
    (map : gmap positive LayerGroup) (zoom : JS.number)
    : gmap positive LayerGroup :=
  match waypointLayer with
  | None => map
  | Some layer =>
      if JS_ge zoom (JS.Fin 9) then addLayer map layer
      else removeLayer map layer
  end.

(** What the side panel says of the zoom level (SidePanel.tsx): the footer
    announces the waypoint markers when [mapZoom >= 9], the header shows its
    hint when [mapZoom < 9]. *)
Definition footerSaysVisible (mapZoom : JS.number) : bool :=
  JS_ge mapZoom (JS.Fin 9).

Definition showsZoomHint (mapZoom : JS.number) : bool :=
  JS.lt mapZoom (JS.Fin 9).

(** What Leaflet accepts.  [L.latLng] throws on a coordinate with a NaN
    component, and with it [L.polyline] and [L.marker]; the shapes of the
    model stand for the layers of the source when every coordinate in them is
    accepted. *)
Definition plottable (p : LatLng) : Prop := p.1 <> JS.NaN /\ p.2 <> JS.NaN.

Definition plottableShape (s : Shape) : Prop :=
  match s with
  | Polyline latlngs => Forall plottable latlngs
  | Marker p => plottable p
  end.

(** The property names an object literal inherits from [Object.prototype].
    For a leg with one of these names [legGroups[wp.leg]] is truthy before
    anything was stored, no array is created and [push] is not a function. *)
Definition objectPrototypeNames : list string :=
  [ "constructor"; "hasOwnProperty"; "isPrototypeOf"; "propertyIsEnumerable";
    "toLocaleString"; "toString"; "valueOf"; "__proto__";
    "__defineGetter__"; "__defineSetter__";
    "__lookupGetter__"; "__lookupSetter__" ].

(** A string of decimal digits.  The keys of an object that are array
    indices are enumerated first, in numeric order; they are all of this
    form. *)
Definition isDigit (c : ascii) : bool :=
  (48 <=? nat_of_ascii c)%nat && (nat_of_ascii c <=? 57)%nat.

Definition allDigits (s : string) : bool :=
  negb (String.eqb s "") && forallb isDigit (list_ascii_of_string s).

(** A waypoint the map can draw: Leaflet accepts its coordinate and its leg
    name is an ordinary key of [legGroups], enumerated in insertion order. *)
Definition drawable (wp : Waypoint) : Prop :=
  plottable (latlng wp)
  /\ (wp.(JourneyData.leg) ∉ objectPrototypeNames)
  /\ allDigits wp.(JourneyData.leg) = false.

(** [legGroups[leg].push(coord)], creating the array at the first coordinate
    of a leg, for leg names that are not in [objectPrototypeNames].  The
    object is kept as the list of its entries in insertion order, which is the
    order of [Object.entries] for keys that are not array indices. *)
Fixpoint pushLeg (legName : string) (coord : LatLng)
    (legGroups : list (string * list LatLng)) : list (string * list LatLng) :=
  match legGroups with
  | [] => [(legName, [coord])]
  | (k, coords) :: rest =>
      if String.eqb k legName then (k, coords ++ [coord]) :: rest
      else (k, coords) :: pushLeg legName coord rest
  end.

Definition legGroups (WAYPOINTS : list Waypoint) : list (string * list LatLng) :=
  fold_left (fun groups wp => pushLeg wp.(JourneyData.leg) (latlng wp) groups)
    WAYPOINTS [].

(** The children of the leg layer: for every leg the dim wide line and the
    bright narrow line over it, both along the coordinates of the leg. *)
Definition legShapes (WAYPOINTS : list Waypoint) : list Shape :=
  flat_map (fun entry : string * list LatLng =>
              [Polyline entry.2; Polyline entry.2])
    (legGroups WAYPOINTS).

(** The coordinates of the waypoints of a leg, in the order of the dataset. *)
Definition legCoords (legName : string) (WAYPOINTS : list Waypoint)
    : list LatLng :=
  latlng <$> filter (fun wp => wp.(JourneyData.leg) = legName) WAYPOINTS.

(** The references the component keeps: [mapRef], [layersRef] and
    [waypointLayerRef].  The map is the table of the layers on it. *)
Record MapView : Type := mkMapView {
  mapRef : option (gmap positive LayerGroup);
  layersRef : gmap string LayerGroup;
  waypointLayerRef : option LayerGroup;
}.

(** How [buildMap] ends: normally, or by an exception, in either case with
    the references as it left them. *)
Inductive outcome (S : Type) : Type :=
  | Done (s : S)
  | Thrown (s : S).
Arguments Done {S} s.
Arguments Thrown {S} s.

Section BuildMap.

Variable hostParse : string -> option Z.
Variable WAYPOINTS : list Waypoint.
Variable TOP_SPEED_1H : option TopSpeed.
Variable FASTEST_6H : option Fastest.

(** [buildMap], from the guard on; [containerMounted] is whether
    [containerRef.current] is set, [highlights] the toggle set of the render
    that created the callback and [next] the first unused stamp.  The two tile
    layers are layers without geometry; the popups, icons and event handlers
    are left out.  The call is taken as a whole: a second call that starts
    while the first waits for the import of Leaflet is not represented.  The
    only exception represented is the one of the vessel marker on an empty
    dataset; the ones Leaflet and [legGroups] raise are excluded by
    [plottableShape] and [drawable] in the statements. *)
Definition buildMap (containerMounted : bool) (highlights : HighlightState)
    (next : positive) (v : MapView) : outcome MapView :=
  if negb containerMounted || bool_decide (is_Some v.(mapRef)) then Done v
  else
    let oceanBase := mkLayerGroup next [] in
    let oceanRef := mkLayerGroup (next + 1) [] in
    let map := addLayer (addLayer ∅ oceanBase) oceanRef in
    let legLayer := mkLayerGroup (next + 2) (legShapes WAYPOINTS) in
    let map := addLayer map legLayer in
    let layers := <["legs" := legLayer]> v.(layersRef) in
    let layers :=
      buildHighlightLayers hostParse WAYPOINTS TOP_SPEED_1H FASTEST_6H
        (next + 3) layers in
    let wpLayer := mkLayerGroup (next + 11) (Marker ∘ latlng <$> WAYPOINTS) in
    match WAYPOINTS !! 0%nat with
    | None =>
        Thrown {| mapRef := Some map; layersRef := layers;
                  waypointLayerRef := Some wpLayer |}
    | Some startWp =>
        let vessel := mkLayerGroup (next + 12) [Marker (latlng startWp)] in
        let map := addLayer map vessel in
        Done {| mapRef := Some (setLayerVisibility layers map highlights);
                layersRef := layers;
                waypointLayerRef := Some wpLayer |}
    end.

(** The effect on [highlights]. *)
Definition highlightsEffect (highlights : HighlightState) (v : MapView)
    : MapView :=
  match v.(mapRef) with
  | None => v
  | Some map =>
      {| mapRef := Some (setLayerVisibility v.(layersRef) map highlights);
         layersRef := v.(layersRef);
         waypointLayerRef := v.(waypointLayerRef) |}
  end.

(** The effect on [mapZoom]. *)
Definition zoomEffect (mapZoom : JS.number) (v : MapView) : MapView :=
  match v.(mapRef) with
  | None => v
  | Some map =>
      {| mapRef := Some (setWaypointLayerVisibility v.(waypointLayerRef)
                           map mapZoom);
         layersRef := v.(layersRef);
         waypointLayerRef := v.(waypointLayerRef) |}
  end.

(** The effect on [activeLeg]: the leg layer is taken off the map and a new
    one, drawn afresh, is put on it and registered. *)
Definition activeLegEffect (next : positive) (v : MapView) : MapView :=
  match v.(mapRef) with
  | None => v
  | Some map =>
      match v.(layersRef) !! "legs" with
      | None => v
      | Some legLayer =>
          let map := removeLayer map legLayer in
          let newLegLayer := mkLayerGroup next (legShapes WAYPOINTS) in
          {| mapRef := Some (addLayer map newLegLayer);
             layersRef := <["legs" := newLegLayer]> v.(layersRef);
             waypointLayerRef := v.(waypointLayerRef) |}
      end
  end.

End BuildMap.

(** Whether a layer is on the map of the component, if there is a map. *)
Definition onMap (v : MapView) (layer : LayerGroup) : bool :=
  match v.(mapRef) with
  | Some map => hasLayer map layer
  | None => false
  end.







(** * Properties *)

(** ** Order on numbers *)

Module JSFacts.

Lemma lt_irrefl (x : JS.number) : JS.lt x x = false.
Proof.
  destruct x; simpl; try reflexivity.
  destruct (Rlt_dec r r) as [H|H]; [exfalso; lra | reflexivity].
Qed.

Lemma lt_Fin (a b : R) : JS.lt (JS.Fin a) (JS.Fin b) = true <-> (a < b)%R.
Proof.
  simpl. destruct (Rlt_dec a b); split; intros; try done.
Qed.

Lemma lt_Fin_false (a b : R) :
  JS.lt (JS.Fin a) (JS.Fin b) = false <-> (b <= a)%R.
Proof.
  simpl. destruct (Rlt_dec a b); split; intros; try done; lra.
Qed.

Lemma lt_trans (x y z : JS.number) :
  JS.lt x y = true -> JS.lt y z = true -> JS.lt x z = true.
Proof.
  destruct x, y, z; simpl; try done.
  repeat destruct (Rlt_dec _ _); try done. lra.
Qed.

Lemma lt_asym (x y : JS.number) : JS.lt x y = true -> JS.lt y x = false.
Proof.
  destruct x, y; simpl; try done.
  repeat destruct (Rlt_dec _ _); try done. lra.
Qed.

(** Two numbers neither of which is below the other are equal, unless one of
    them is NaN. *)
Lemma lt_total (x y : JS.number) :
  x <> JS.NaN -> y <> JS.NaN ->
  JS.lt x y = false -> JS.lt y x = false -> x = y.
Proof.
  destruct x, y; simpl; try done.
  repeat destruct (Rlt_dec _ _); try done.
  intros _ _ _ _. f_equal. lra.
Qed.

(** A number that is not below a bound which another number is below. *)
Lemma lt_not_below (x w b : JS.number) :
  JS.lt x b = false -> JS.lt w b = true -> x = JS.NaN \/ JS.lt w x = true.
Proof.
  destruct x, w, b; simpl; try done; auto.
  repeat destruct (Rlt_dec _ _); try done; auto. lra.
Qed.

Lemma lt_le_trans (x y z : JS.number) :
  JS.lt x y = true -> JS.lt z y = false -> z <> JS.NaN -> JS.lt x z = true.
Proof.
  destruct x, y, z; simpl; try done.
  repeat destruct (Rlt_dec _ _); try done. lra.
Qed.

Lemma truthy_Fin (r : R) : JS.truthy (JS.Fin r) = true <-> r <> 0%R.
Proof.
  simpl. destruct (Req_dec_T r 0); split; intros; try done.
Qed.

Lemma div_Fin (a b : R) :
  b <> 0%R -> JS.div (JS.Fin a) (JS.Fin b) = JS.Fin (a / b).
Proof.
  intros Hb. simpl. destruct (Req_dec_T b 0); [done | reflexivity].
Qed.

End JSFacts.

(** ** The scan of the nearest-point matcher *)

Section Scan.

Variables lat lon : JS.number.

Lemma scan_step_unfold (acc : option Waypoint * JS.number) (wp : Waypoint) :
  scan_step lat lon acc wp =
  if JS.lt (dist lat lon wp) acc.2 then (Some wp, dist lat lon wp) else acc.
Proof. destruct acc as [best bestDist]. reflexivity. Qed.

(** Waypoints that are not strictly nearer than the running minimum leave the
    loop variables as they are. *)
Lemma scan_unchanged (wps : list Waypoint) (acc : option Waypoint * JS.number) :
  (forall u, u ∈ wps -> JS.lt (dist lat lon u) acc.2 = false) ->
  fold_left (scan_step lat lon) wps acc = acc.
Proof.
  induction wps as [|x rest IH]; intros Hall; [reflexivity|].
  cbn [fold_left]. rewrite scan_step_unfold, (Hall x) by left.
  apply IH. intros u Hu. apply Hall. by right.
Qed.

(** The result of the scan from any state of the loop variables: either no
    waypoint was strictly nearer than the initial bound, or the result is the
    first waypoint of minimal distance. *)
Lemma scan_cases (wps : list Waypoint) (b0 : option Waypoint) (bd0 : JS.number) :
  (fold_left (scan_step lat lon) wps (b0, bd0) = (b0, bd0)
   /\ forall u, u ∈ wps -> JS.lt (dist lat lon u) bd0 = false)
  \/ exists pre w post,
       wps = pre ++ w :: post
       /\ fold_left (scan_step lat lon) wps (b0, bd0) = (Some w, dist lat lon w)
       /\ JS.lt (dist lat lon w) bd0 = true
       /\ (forall u, u ∈ pre ->
             dist lat lon u = JS.NaN \/ JS.lt (dist lat lon w) (dist lat lon u) = true)
       /\ (forall u, u ∈ post -> JS.lt (dist lat lon u) (dist lat lon w) = false).
Proof.
  revert b0 bd0.
  induction wps as [|x rest IH]; intros b0 bd0.
  - left. split; [reflexivity|]. intros u Hu. by apply elem_of_nil in Hu.
  - cbn [fold_left]. rewrite scan_step_unfold. cbn [snd].
    destruct (JS.lt (dist lat lon x) bd0) eqn:Hx.
    + destruct (IH (Some x) (dist lat lon x))
        as [[Heq Hall] | (pre & w & post & -> & Heq & Hlt & Hpre & Hpost)].
      * right. exists [], x, rest. repeat split; try done.
        intros u Hu. by apply elem_of_nil in Hu.
      * right. exists (x :: pre), w, post. repeat split; try done.
        -- eapply JSFacts.lt_trans; eassumption.
        -- intros u [->|Hu]%elem_of_cons; [by right | by apply Hpre].
    + destruct (IH b0 bd0)
        as [[Heq Hall] | (pre & w & post & -> & Heq & Hlt & Hpre & Hpost)].
      * left. split; [done|].
        intros u [->|Hu]%elem_of_cons; [done | by apply Hall].
      * right. exists (x :: pre), w, post. repeat split; try done.
        intros u [->|Hu]%elem_of_cons; [| by apply Hpre].
        eapply JSFacts.lt_not_below; eassumption.
Qed.

(** The running minimum after any prefix is [Infinity] or the distance of a
    waypoint of the prefix that is below [Infinity]. *)
Lemma scan_prefix (wps : list Waypoint) :
  let r := nearestWaypoint lat lon wps in
  r = (None, JS.Infinity)
  \/ exists w, w ∈ wps /\ r = (Some w, dist lat lon w)
       /\ JS.lt (dist lat lon w) JS.Infinity = true.
Proof.
  unfold nearestWaypoint.
  destruct (scan_cases wps None JS.Infinity)
    as [[Heq _] | (pre & w & post & -> & Heq & Hlt & _)].
  - by left.
  - right. exists w. split; [|done].
    apply elem_of_app. right. by left.
Qed.

(** The scan returns the first waypoint of minimal distance: a waypoint
    strictly nearer than every earlier one and at least as near as every later
    one. *)
Lemma scan_first_min (pre post : list Waypoint) (w : Waypoint) :
  JS.lt (dist lat lon w) JS.Infinity = true ->
  (forall u, u ∈ pre ->
     dist lat lon u = JS.NaN \/ JS.lt (dist lat lon w) (dist lat lon u) = true) ->
  (forall u, u ∈ post -> JS.lt (dist lat lon u) (dist lat lon w) = false) ->
  nearestWaypoint lat lon (pre ++ w :: post) = (Some w, dist lat lon w).
Proof.
  intros Hw Hpre Hpost. unfold nearestWaypoint.
  rewrite fold_left_app. cbn [fold_left].
  fold (nearestWaypoint lat lon pre).
  assert (Hlt : JS.lt (dist lat lon w) (nearestWaypoint lat lon pre).2 = true).
  { destruct (scan_prefix pre) as [-> | (u & Hu & -> & Hfin)]; [done|].
    cbn [snd]. destruct (Hpre u Hu) as [HNaN | Hlt]; [|done].
    rewrite HNaN in Hfin. done. }
  rewrite scan_step_unfold, Hlt.
  by apply scan_unchanged.
Qed.

End Scan.

(** ** The haversine formula in exact arithmetic *)

Section Haversine.

Local Open Scope R_scope.

Lemma asin_le (x y : R) : -1 <= x -> x <= y -> y <= 1 -> asin x <= asin y.
Proof.
  intros Hx Hxy Hy.
  pose proof (asin_bound x) as [? ?]. pose proof (asin_bound y) as [? ?].
  apply sin_incr_0; try done.
  rewrite !sin_asin; lra.
Qed.

Lemma asin_nonneg (x : R) : 0 <= x -> x <= 1 -> 0 <= asin x.
Proof. intros. rewrite <- asin_0. apply asin_le; lra. Qed.

(** [Math.asin(Math.sqrt(a))] is NaN or a finite number in [0, PI/2]. *)
Lemma asin_sqrt_range (a : JS.number) :
  JS.Math.asin (JS.Math.sqrt a) = JS.NaN
  \/ exists r, JS.Math.asin (JS.Math.sqrt a) = JS.Fin r /\ 0 <= r <= PI / 2.
Proof.
  destruct a as [| |r|]; simpl; auto.
  destruct (Rlt_dec r 0); simpl; auto.
  destruct (Rlt_dec (sqrt r) (-1)); auto.
  destruct (Rlt_dec 1 (sqrt r)); auto.
  right. eexists; split; [reflexivity|].
  split; [apply asin_nonneg; [apply sqrt_pos | lra] | apply asin_bound].
Qed.

(** A computed distance is NaN or a finite non-negative number. *)
Lemma haversine_range (lat1 lon1 lat2 lon2 : JS.number) :
  haversine lat1 lon1 lat2 lon2 = JS.NaN
  \/ exists r, haversine lat1 lon1 lat2 lon2 = JS.Fin r /\ 0 <= r.
Proof.
  unfold haversine.
  match goal with |- context [JS.Math.sqrt ?a] => generalize a end.
  intros a.
  destruct (asin_sqrt_range a) as [-> | (r & -> & Hr)]; simpl; auto.
  right. eexists; split; [reflexivity|]. apply Rmult_le_pos; lra.
Qed.


(** On finite inputs the formula is the real-valued one. *)
Lemma haversine_Fin (lat1 lon1 lat2 lon2 : R) :
  haversine (JS.Fin lat1) (JS.Fin lon1) (JS.Fin lat2) (JS.Fin lon2) =
  JS.mul (JS.Fin (2 * 3440.065))
    (JS.Math.asin (JS.Math.sqrt (JS.Fin (hav_arg lat1 lon1 lat2 lon2)))).
Proof.
  unfold haversine, hav_arg. cbn [JS.sub JS.neg JS.add JS.mul JS.Math.PI].
  rewrite !JSFacts.div_Fin by lra.
  cbn [JS.Math.sin JS.Math.cos JS.sqr JS.mul JS.add].
  reflexivity.
Qed.

Lemma haversine_Fin_value (lat1 lon1 lat2 lon2 : R) :
  0 <= hav_arg lat1 lon1 lat2 lon2 <= 1 ->
  haversine (JS.Fin lat1) (JS.Fin lon1) (JS.Fin lat2) (JS.Fin lon2) =
  JS.Fin (2 * 3440.065 * asin (sqrt (hav_arg lat1 lon1 lat2 lon2))).
Proof.
  intros [H0 H1]. rewrite haversine_Fin. simpl.
  destruct (Rlt_dec _ 0); [lra|]. simpl.
  assert (0 <= sqrt (hav_arg lat1 lon1 lat2 lon2) <= 1) as [? ?].
  { split; [apply sqrt_pos|]. rewrite <- sqrt_1. by apply sqrt_le_1_alt. }
  destruct (Rlt_dec _ (-1)); [lra|].
  destruct (Rlt_dec 1 _); [lra|]. reflexivity.
Qed.


Lemma deg_half_turn (phi : R) :
  -90 <= phi <= 90 -> - (PI / 2) <= phi * PI / 180 <= PI / 2.
Proof. intros [? ?]. pose proof PI_RGT_0. split; nra. Qed.

Lemma cos_deg_nonneg (phi : R) : -90 <= phi <= 90 -> 0 <= cos (phi * PI / 180).
Proof. intros H. apply deg_half_turn in H as [? ?]. by apply cos_ge_0. Qed.

Lemma hav_arg_nonneg (lat1 lon1 lat2 lon2 : R) :
  0 <= cos (lat1 * PI / 180) * cos (lat2 * PI / 180) ->
  0 <= hav_arg lat1 lon1 lat2 lon2.
Proof.
  intros Hc. unfold hav_arg.
  set (s := sin _). set (t := sin _).
  pose proof (Rle_0_sqr s) as Hs. pose proof (Rle_0_sqr t) as Ht.
  unfold Rsqr in *. nra.
Qed.

Lemma hav_arg_le_1 (lat1 lon1 lat2 lon2 : R) :
  0 <= cos (lat1 * PI / 180) * cos (lat2 * PI / 180) ->
  hav_arg lat1 lon1 lat2 lon2 <= 1.
Proof.
  intros Hc. unfold hav_arg.
  set (x1 := lat1 * PI / 180) in *. set (x2 := lat2 * PI / 180) in *.
  replace ((lat2 + - lat1) * PI / 180 / 2) with ((x2 - x1) / 2)
    by (unfold x1, x2; lra).
  set (t := sin ((lon2 + - lon1) * PI / 180 / 2)).
  pose proof (cos_2a_sin ((x2 - x1) / 2)) as Hdbl.
  replace (2 * ((x2 - x1) / 2)) with (x2 - x1) in Hdbl by lra.
  rewrite cos_minus in Hdbl.
  pose proof (cos_plus x1 x2) as Hplus.
  pose proof (COS_bound (x1 + x2)) as [_ Hle].
  pose proof (SIN_bound ((lon2 + - lon1) * PI / 180 / 2)) as [Ht1 Ht2].
  fold t in Ht1, Ht2.
  assert (0 <= t * t <= 1) as [? ?] by nra.
  set (s := sin ((x2 - x1) / 2)) in *.
  nra.
Qed.

Lemma hav_arg_valid (lat1 lon1 lat2 lon2 : R) :
  -90 <= lat1 <= 90 -> -90 <= lat2 <= 90 ->
  0 <= hav_arg lat1 lon1 lat2 lon2 <= 1.
Proof.
  intros H1%cos_deg_nonneg H2%cos_deg_nonneg.
  split; [apply hav_arg_nonneg | apply hav_arg_le_1]; nra.
Qed.

(** Along a meridian the distance is the arc length: the radius times the
    difference of latitude in radians. *)
Lemma haversine_same_lon (lat1 lat2 lon : R) :
  -180 <= lat2 - lat1 <= 180 ->
  haversine (JS.Fin lat1) (JS.Fin lon) (JS.Fin lat2) (JS.Fin lon) =
  JS.Fin (3440.065 * (Rabs (lat2 - lat1) * PI / 180)).
Proof.
  intros Hd. pose proof PI_RGT_0 as HPI.
  set (y := (lat2 + - lat1) * PI / 180 / 2).
  assert (Hy : - (PI / 2) <= y <= PI / 2) by (unfold y; split; nra).
  assert (Ha : hav_arg lat1 lon lat2 lon = Rsqr (sin y)).
  { unfold hav_arg. fold y.
    replace ((lon + - lon) * PI / 180 / 2) with 0 by lra.
    rewrite sin_0. unfold Rsqr. lra. }
  pose proof (SIN_bound y) as [Hs1 Hs2].
  assert (Hrange : 0 <= hav_arg lat1 lon lat2 lon <= 1).
  { rewrite Ha. split; [apply Rle_0_sqr | unfold Rsqr; nra]. }
  rewrite haversine_Fin_value by done.
  rewrite Ha, sqrt_Rsqr_abs. f_equal.
  assert (Hasin : asin (Rabs (sin y)) = Rabs y).
  { destruct (Rle_dec 0 y) as [Hpos | Hneg].
    - rewrite (Rabs_pos_eq y) by done.
      rewrite Rabs_pos_eq by (apply sin_ge_0; lra).
      apply asin_sin. lra.
    - rewrite (Rabs_left y) by lra.
      assert (Hopp : 0 <= sin (- y)) by (apply sin_ge_0; lra).
      replace (Rabs (sin y)) with (sin (- y)).
      + apply asin_sin. lra.
      + rewrite sin_neg in *. rewrite Rabs_left1; lra. }
  rewrite Hasin. unfold y.
  replace ((lat2 + - lat1) * PI / 180 / 2) with ((lat2 - lat1) * (PI / 360))
    by lra.
  rewrite Rabs_mult, (Rabs_pos_eq (PI / 360)) by lra. lra.
Qed.

End Haversine.

(** ** The nearest-point matcher *)

Section Matcher.

Variables lat lon : JS.number.

(** The distance the scan returns is a lower bound of all distances; it is
    [Infinity] with no waypoint, or the distance of the waypoint returned. *)
Lemma scan_min (wps : list Waypoint) :
  (forall u, u ∈ wps ->
     JS.lt (dist lat lon u) (nearestWaypoint lat lon wps).2 = false)
  /\ (nearestWaypoint lat lon wps = (None, JS.Infinity)
      \/ exists w, w ∈ wps
           /\ nearestWaypoint lat lon wps = (Some w, dist lat lon w)
           /\ JS.lt (dist lat lon w) JS.Infinity = true).
Proof.
  unfold nearestWaypoint.
  destruct (scan_cases lat lon wps None JS.Infinity)
    as [[Heq Hall] | (pre & w & post & -> & Heq & Hlt & Hpre & Hpost)];
    rewrite Heq; cbn [snd].
  - split; [done | by left].
  - split.
    + intros u [Hu | [-> | Hu]%elem_of_cons]%elem_of_app.
      * destruct (Hpre u Hu) as [-> | H]; [done | by apply JSFacts.lt_asym].
      * apply JSFacts.lt_irrefl.
      * by apply Hpost.
    + right. exists w. split; [|done]. apply elem_of_app. right. by left.
Qed.

(** With a waypoint at a distance below [Infinity], a waypoint is returned. *)
Lemma scan_some (wps : list Waypoint) (u : Waypoint) :
  u ∈ wps -> JS.lt (dist lat lon u) JS.Infinity = true ->
  exists w, w ∈ wps
    /\ nearestWaypoint lat lon wps = (Some w, dist lat lon w)
    /\ JS.lt (dist lat lon w) JS.Infinity = true.
Proof.
  intros Hu Hfin. destruct (scan_min wps) as [Hall [Hnone | Hsome]]; [|done].
  specialize (Hall u Hu). rewrite Hnone in Hall. cbn [snd] in Hall.
  unfold JS.Infinity in *. congruence.
Qed.

End Matcher.


Lemma dist_meridian (lat1 lat2 lon : R) (i : nat) (t : string) :
  (-180 <= lat2 - lat1 <= 180)%R ->
  dist (JS.Fin lat1) (JS.Fin lon) (waypointAt i lat2 lon t)
  = JS.Fin (3440.065 * (Rabs (lat2 - lat1) * PI / 180)).
Proof. intros H. unfold dist, waypointAt. cbn [JourneyData.lat JourneyData.lon].
  by apply haversine_same_lon. Qed.





(** *** Ties *)

(** C2, as amended.  When two waypoints are at exactly the same computed
    distance from the query and every other waypoint is strictly farther, the
    matcher returns the one with the smaller index. *)
Theorem exact_tie_earlier_wins (lat lon : JS.number)
    (pre mid post : list Waypoint) (wi wj : Waypoint) :
  dist lat lon wi = dist lat lon wj ->
  JS.lt (dist lat lon wi) JS.Infinity = true ->
  (forall u, u ∈ pre ++ mid ++ post ->
     dist lat lon u = JS.NaN
     \/ JS.lt (dist lat lon wi) (dist lat lon u) = true) ->
  nearestWaypoint lat lon (pre ++ wi :: mid ++ wj :: post)
  = (Some wi, dist lat lon wi).
Proof.
  intros Htie Hfin Hothers. apply scan_first_min; [done | |].
  - intros u Hu. apply Hothers. apply elem_of_app. by left.
  - intros u [Hu | [-> | Hu]%elem_of_cons]%elem_of_app.
    + destruct (Hothers u) as [-> | H]; [|done | by apply JSFacts.lt_asym].
      rewrite !elem_of_app. right. by left.
    + rewrite <- Htie. apply JSFacts.lt_irrefl.
    + destruct (Hothers u) as [-> | H]; [|done | by apply JSFacts.lt_asym].
      rewrite !elem_of_app. right. by right.
Qed.

Lemma exact_tie_earlier_wins_witness :
  nearestWaypoint (JS.Fin (-12)) (JS.Fin 131)
    ([waypointAt 0 (-15) 131 ""]
     ++ waypointAt 1 (-13) 131 "" :: [] ++ waypointAt 2 (-11) 131 "" :: [])
  = (Some (waypointAt 1 (-13) 131 ""),
     dist (JS.Fin (-12)) (JS.Fin 131) (waypointAt 1 (-13) 131 "")).
Proof.
  assert (H0 : dist (JS.Fin (-12)) (JS.Fin 131) (waypointAt 0 (-15) 131 "")
               = JS.Fin (3440.065 * (3 * PI / 180))).
  { rewrite dist_meridian by lra. do 3 f_equal. rewrite Rabs_left; lra. }
  assert (H1 : dist (JS.Fin (-12)) (JS.Fin 131) (waypointAt 1 (-13) 131 "")
               = JS.Fin (3440.065 * (1 * PI / 180))).
  { rewrite dist_meridian by lra. do 3 f_equal. rewrite Rabs_left; lra. }
  assert (H2 : dist (JS.Fin (-12)) (JS.Fin 131) (waypointAt 2 (-11) 131 "")
               = JS.Fin (3440.065 * (1 * PI / 180))).
  { rewrite dist_meridian by lra. do 3 f_equal. rewrite Rabs_pos_eq; lra. }
  apply exact_tie_earlier_wins.
  - by rewrite H1, H2.
  - by rewrite H1.
  - intros u ->%list_elem_of_singleton. right. rewrite H0, H1.
    apply JSFacts.lt_Fin. pose proof PI_RGT_0. lra.
Defined.

(** C2, as stated, fails: the comparison is strict and exact.  Two waypoints
    on the meridian of the query, 2e-18 and 1e-18 degrees of latitude away
    from it, are at distances that differ by less than [Number.EPSILON]
    nautical miles; the matcher returns the later, nearer one. *)
Lemma near_tie_later_wins :
  let w0 := waypointAt 0 3e-18 1 "" in
  let w1 := waypointAt 1 2e-18 1 "" in
  equidistantWithin Number_EPSILON
    (dist (JS.Fin 1e-18) (JS.Fin 1) w0) (dist (JS.Fin 1e-18) (JS.Fin 1) w1)
  /\ (nearestWaypoint (JS.Fin 1e-18) (JS.Fin 1) [w0; w1]).1 = Some w1.
Proof.
  intros w0 w1. pose proof PI_RGT_0 as HPI. pose proof PI_4 as HPI4.
  assert (H0 : dist (JS.Fin 1e-18) (JS.Fin 1) w0
               = JS.Fin (3440.065 * (2e-18 * PI / 180))).
  { unfold w0. rewrite dist_meridian by lra. do 3 f_equal. rewrite Rabs_pos_eq; lra. }
  assert (H1 : dist (JS.Fin 1e-18) (JS.Fin 1) w1
               = JS.Fin (3440.065 * (1e-18 * PI / 180))).
  { unfold w1. rewrite dist_meridian by lra. do 3 f_equal. rewrite Rabs_pos_eq; lra. }
  split.
  - eexists _, _. split; [exact H0|]. split; [exact H1|].
    unfold Number_EPSILON. rewrite Rabs_pos_eq; lra.
  - change [w0; w1] with ([w0] ++ w1 :: []).
    rewrite scan_first_min; [done | by rewrite H1 | |].
    + intros u ->%list_elem_of_singleton. right. rewrite H0, H1.
      apply JSFacts.lt_Fin. lra.
    + intros u Hu. by apply elem_of_nil in Hu.
Qed.

(** No tolerance at all is honoured: whatever [eps] is, there are two
    waypoints at distances within [eps] of each other of which the later,
    nearer one is returned. *)
Lemma no_tolerance_honoured (eps : R) :
  (0 < eps)%R ->
  exists w0 w1 : Waypoint,
    equidistantWithin eps
      (dist (JS.Fin 1) (JS.Fin 1) w0) (dist (JS.Fin 1) (JS.Fin 1) w1)
    /\ (nearestWaypoint (JS.Fin 1) (JS.Fin 1) [w0; w1]).1 = Some w1.
Proof.
  intros Heps. pose proof PI_RGT_0 as HPI. pose proof PI_4 as HPI4.
  set (delta := (Rmin eps 1 / 100)%R).
  assert (Hdelta : (0 < delta <= 1 / 100 /\ 100 * delta <= eps)%R).
  { unfold delta. pose proof (Rmin_l eps 1). pose proof (Rmin_r eps 1).
    assert (0 < Rmin eps 1)%R by (apply Rmin_glb_lt; lra).
    repeat split; lra. }
  destruct Hdelta as ([Hd0 Hd1] & Hd2).
  set (w0 := waypointAt 0 (1 + 2 * delta) 1 "").
  set (w1 := waypointAt 1 (1 + delta) 1 "").
  assert (H0 : dist (JS.Fin 1) (JS.Fin 1) w0
               = JS.Fin (3440.065 * (2 * delta * PI / 180))).
  { unfold w0. rewrite dist_meridian by lra. do 3 f_equal.
    rewrite Rabs_pos_eq; lra. }
  assert (H1 : dist (JS.Fin 1) (JS.Fin 1) w1
               = JS.Fin (3440.065 * (delta * PI / 180))).
  { unfold w1. rewrite dist_meridian by lra. do 3 f_equal.
    rewrite Rabs_pos_eq; lra. }
  exists w0, w1. split.
  - eexists _, _. split; [exact H0|]. split; [exact H1|].
    rewrite Rabs_pos_eq by nra. nra.
  - change [w0; w1] with ([w0] ++ w1 :: []).
    rewrite scan_first_min; [done | by rewrite H1 | |].
    + intros u ->%list_elem_of_singleton. right. rewrite H0, H1.
      apply JSFacts.lt_Fin. nra.
    + intros u Hu. by apply elem_of_nil in Hu.
Qed.

(** *** Reordering the dataset *)

(** C8.  The minimal distance found by the matcher does not depend on the
    order in which the waypoints are stored: on a permutation of the dataset
    the scan returns the same distance, a waypoint is matched on one order
    exactly when one is matched on the other, and the two matched waypoints
    are at the same distance from the query. *)
Theorem min_distance_permutation_invariant (lat lon : JS.number)
    (wps wps' : list Waypoint) :
  Permutation wps wps' ->
  (nearestWaypoint lat lon wps).2 = (nearestWaypoint lat lon wps').2
  /\ (is_Some (nearestWaypoint lat lon wps).1
      <-> is_Some (nearestWaypoint lat lon wps').1)
  /\ (forall w w',
        (nearestWaypoint lat lon wps).1 = Some w ->
        (nearestWaypoint lat lon wps').1 = Some w' ->
        dist lat lon w = dist lat lon w').
Proof.
  intros Hperm.
  assert (Hin : forall u, u ∈ wps <-> u ∈ wps')
    by (intros u; by rewrite Hperm).
  destruct (scan_min lat lon wps) as [Hlow [Hnone | (w & Hw & Hres & Hfin)]];
  destruct (scan_min lat lon wps')
    as [Hlow' [Hnone' | (w' & Hw' & Hres' & Hfin')]].
  - rewrite Hnone, Hnone'. cbn. repeat split; intros; try done.
  - exfalso. specialize (Hlow w' (proj2 (Hin w') Hw')).
    rewrite Hnone in Hlow. cbn [snd] in Hlow. congruence.
  - exfalso. specialize (Hlow' w (proj1 (Hin w) Hw)).
    rewrite Hnone' in Hlow'. cbn [snd] in Hlow'. congruence.
  - specialize (Hlow w' (proj2 (Hin w') Hw')).
    specialize (Hlow' w (proj1 (Hin w) Hw)).
    rewrite Hres in *. rewrite Hres' in *. cbn [fst snd] in *.
    assert (Heq : dist lat lon w = dist lat lon w').
    { apply JSFacts.lt_total; try done.
      - intros E. rewrite E in Hfin. done.
      - intros E. rewrite E in Hfin'. done. }
    repeat split; try done.
    intros ? ? [= <-] [= <-]. exact Heq.
Qed.

Lemma min_distance_permutation_invariant_witness :
  (nearestWaypoint (JS.Fin (-12)) (JS.Fin 131)
     [waypointAt 0 (-15) 131 ""; waypointAt 1 (-13) 131 ""]).2
  = (nearestWaypoint (JS.Fin (-12)) (JS.Fin 131)
       [waypointAt 1 (-13) 131 ""; waypointAt 0 (-15) 131 ""]).2.
Proof.
  apply (min_distance_permutation_invariant (JS.Fin (-12)) (JS.Fin 131)
           [waypointAt 0 (-15) 131 ""; waypointAt 1 (-13) 131 ""]
           [waypointAt 1 (-13) 131 ""; waypointAt 0 (-15) 131 ""]).
  apply perm_swap.
Defined.

(** *** The empty dataset, and coordinates out of range *)

(** The formula never gives an infinity: a computed distance that is not
    below [Infinity] is NaN. *)
Lemma dist_not_below_Infinity (lat lon : JS.number) (u : Waypoint) :
  JS.lt (dist lat lon u) JS.Infinity = false <-> dist lat lon u = JS.NaN.
Proof.
  unfold dist.
  destruct (haversine_range lat lon u.(JourneyData.lat) u.(JourneyData.lon))
    as [-> | (r & -> & _)]; split; done.
Qed.

(** C3, as amended.  On the empty dataset the scan ends with [best = null]
    and [bestDist = Infinity].  On every dataset and for every coordinate the
    scan ends with [best = null] exactly when no waypoint has a computed
    distance below [Infinity], which for this formula means that every
    computed distance is NaN ([dist_not_below_Infinity]); as
    soon as one waypoint has such a distance a waypoint of least computed
    distance is returned, however far the query is from the track.  The [try]
    block of [handleFile] then completes normally, and with a truthy
    coordinate the flow is in the confirmation step with the result of the
    scan as the suggestion.  The proof uses the strict comparison of the loop
    only, nothing of the arithmetic of the distance. *)
Theorem matcher_no_match_iff_no_distance (lat lon : JS.number)
    (WAYPOINTS : list Waypoint) :
  (WAYPOINTS = [] -> nearestWaypoint lat lon WAYPOINTS = (None, JS.Infinity))
  /\ ((nearestWaypoint lat lon WAYPOINTS).1 = None
      <-> forall u, u ∈ WAYPOINTS -> JS.lt (dist lat lon u) JS.Infinity = false)
  /\ (forall u, u ∈ WAYPOINTS -> JS.lt (dist lat lon u) JS.Infinity = true ->
      exists w, w ∈ WAYPOINTS
        /\ nearestWaypoint lat lon WAYPOINTS = (Some w, dist lat lon w)
        /\ forall v, v ∈ WAYPOINTS ->
             JS.lt (dist lat lon v) (dist lat lon w) = false)
  /\ (forall (File : Type) (exifr_gps : File -> GpsOutcome) (file : File)
        (st : State File),
      exifr_gps file = GpsFound lat lon ->
      exists st', handleFile_try File exifr_gps WAYPOINTS file st = Return st'
        /\ (JS.truthy lat && JS.truthy lon = true ->
            st'.(step) = confirm_gps
            /\ st'.(suggestedWp) = (nearestWaypoint lat lon WAYPOINTS).1)).
Proof.
  split; [by intros -> |].
  destruct (scan_min lat lon WAYPOINTS) as [Hlow Hres].
  split; [|split].
  - split.
    + intros Hnone u Hu.
      destruct Hres as [Heq | (w & _ & Heq & _)]; rewrite Heq in Hnone; [|done].
      specialize (Hlow u Hu). by rewrite Heq in Hlow.
    + intros Hall. destruct Hres as [-> | (w & Hw & _ & Hfin)]; [done|].
      rewrite (Hall w Hw) in Hfin. done.
  - intros u Hu Hfin.
    destruct (scan_some lat lon WAYPOINTS u Hu Hfin) as (w & Hw & Heq & _).
    exists w. split; [done|]. split; [done|].
    intros v Hv. specialize (Hlow v Hv). by rewrite Heq in Hlow.
  - intros File exifr_gps file st Hgps. unfold handleFile_try. rewrite Hgps.
    destruct (JS.truthy lat && JS.truthy lon).
    + destruct (nearestWaypoint lat lon WAYPOINTS) as [best bestDist].
      eexists. split; [reflexivity|]. by intros _.
    + eexists. split; [reflexivity|]. done.
Qed.

Lemma matcher_no_match_iff_no_distance_witness :
  let w0 := waypointAt 0 (-12.4) 130.8 "" in
  exists w, w ∈ [w0]
    /\ nearestWaypoint (JS.Fin 60) (JS.Fin 130.8) [w0]
       = (Some w, dist (JS.Fin 60) (JS.Fin 130.8) w)
    /\ forall v, v ∈ [w0] ->
         JS.lt (dist (JS.Fin 60) (JS.Fin 130.8) v)
           (dist (JS.Fin 60) (JS.Fin 130.8) w) = false.
Proof.
  intros w0.
  refine (proj1 (proj2 (proj2 (matcher_no_match_iff_no_distance
            (JS.Fin 60) (JS.Fin 130.8) [w0]))) w0 _ _).
  - by left.
  - unfold w0. by rewrite dist_meridian by lra.
Defined.

(** ** The photo-attachment flow *)

Section UploadFlow.

Variable File : Type.
Variable createObjectURL : File -> string.
Variable WAYPOINTS : list Waypoint.

(** The state after the two [setState] calls that precede the [try]. *)
Lemma handleFile_no_gps (exifr_gps : File -> GpsOutcome) (file : File)
    (st : State File) :
  exifr_gps file = GpsUndefined \/ exifr_gps file = GpsThrows ->
  handleFile File createObjectURL exifr_gps WAYPOINTS file st
  = mkState (Some (createObjectURL file)) st.(exifLocation) st.(suggestedWp)
      (Some file) st.(step).
Proof.
  unfold handleFile, handleFile_try. by intros [-> | ->].
Qed.

(** C4, as amended.  No range or finiteness check is made on the extracted
    coordinate: whenever latitude and longitude are both truthy (not 0, not
    NaN), in range or not, the scan is run on them and the flow enters the
    confirmation step with the result of the scan as the suggestion. *)
Theorem no_coordinate_validation (exifr_gps : File -> GpsOutcome)
    (file : File) (st : State File) (lat lon : JS.number) :
  exifr_gps file = GpsFound lat lon ->
  JS.truthy lat = true -> JS.truthy lon = true ->
  handleFile File createObjectURL exifr_gps WAYPOINTS file st
  = mkState (Some (createObjectURL file)) (Some (lat, lon))
      (nearestWaypoint lat lon WAYPOINTS).1 (Some file) confirm_gps.
Proof.
  intros Hgps Hlat Hlon. unfold handleFile, handleFile_try.
  rewrite Hgps, Hlat, Hlon. cbn [andb].
  by destruct (nearestWaypoint lat lon WAYPOINTS) as [best bestDist].
Qed.

(** C10.  When the extracted latitude or longitude is exactly 0 the flow does
    what it does for a photo without location metadata: no suggestion is
    computed, the step and the recorded location are left as they were, and
    from the upload step the only target of a save is the waypoint the dialog
    was opened on. *)
Theorem zero_coordinate_treated_as_missing
    (exifr_gps exifr_none : File -> GpsOutcome)
    (file : File) (st : State File) (waypoint : Waypoint) (lat lon : JS.number) :
  exifr_gps file = GpsFound lat lon ->
  exifr_none file = GpsUndefined ->
  lat = JS.Fin 0 \/ lon = JS.Fin 0 ->
  let st' := handleFile File createObjectURL exifr_gps WAYPOINTS file st in
  st' = handleFile File createObjectURL exifr_none WAYPOINTS file st
  /\ st'.(step) = st.(step)
  /\ st'.(suggestedWp) = st.(suggestedWp)
  /\ st'.(exifLocation) = st.(exifLocation)
  /\ (st.(step) = upload -> saveTargets waypoint st' = [waypoint]).
Proof.
  intros Hgps Hnone Hzero st'.
  assert (Hgate : JS.truthy lat && JS.truthy lon = false).
  { destruct Hzero as [-> | ->].
    - cbn. destruct (Req_dec_T 0 0); done.
    - rewrite andb_comm. cbn. destruct (Req_dec_T 0 0); done. }
  assert (Hst' : st' = mkState (Some (createObjectURL file)) st.(exifLocation)
                         st.(suggestedWp) (Some file) st.(step)).
  { unfold st', handleFile, handleFile_try. by rewrite Hgps, Hgate. }
  rewrite (handleFile_no_gps exifr_none) by (by left).
  rewrite Hst'. repeat split; try done.
  intros Hup. unfold saveTargets. cbn. by rewrite Hup.
Qed.

End UploadFlow.

Lemma no_coordinate_validation_witness :
  handleFile string (fun f => f) (fun _ => GpsFound (JS.Fin (-12.4)) (JS.Fin 130.8)) []
    "photo.jpg" resetState
  = mkState (Some "photo.jpg") (Some (JS.Fin (-12.4), JS.Fin 130.8))
      (nearestWaypoint (JS.Fin (-12.4)) (JS.Fin 130.8) []).1
      (Some "photo.jpg") confirm_gps.
Proof.
  apply (no_coordinate_validation string (fun f => f) []
           (fun _ => GpsFound (JS.Fin (-12.4)) (JS.Fin 130.8))
           "photo.jpg" resetState (JS.Fin (-12.4)) (JS.Fin 130.8)).
  - reflexivity.
  - apply JSFacts.truthy_Fin. lra.
  - apply JSFacts.truthy_Fin. lra.
Defined.

Lemma zero_coordinate_treated_as_missing_witness :
  let w := waypointAt 0 0 131 "" in
  let st' := handleFile string (fun f => f) (fun _ => GpsFound (JS.Fin 0) (JS.Fin 131))
               [w] "photo.jpg" resetState in
  st' = handleFile string (fun f => f) (fun _ => GpsUndefined) [w] "photo.jpg" resetState
  /\ st'.(step) = upload
  /\ st'.(suggestedWp) = None
  /\ st'.(exifLocation) = None
  /\ (upload = upload -> saveTargets w st' = [w]).
Proof.
  intros w.
  apply (zero_coordinate_treated_as_missing string (fun f => f) [w]
           (fun _ => GpsFound (JS.Fin 0) (JS.Fin 131)) (fun _ => GpsUndefined)
           "photo.jpg" resetState w (JS.Fin 0) (JS.Fin 131)).
  - reflexivity.
  - reflexivity.
  - by left.
Defined.

(** A waypoint whose latitude is NaN has no distance from any coordinate. *)
Lemma haversine_NaN_lat (lat1 lon1 lon2 : JS.number) :
  haversine lat1 lon1 JS.NaN lon2 = JS.NaN.
Proof. reflexivity. Qed.

(** C3, as stated, fails in both halves.  On the empty dataset the [try]
    block completes normally: nothing is thrown, the suggestion is [null] and
    the flow is in the confirmation step.  On a dataset of one waypoint whose
    latitude is NaN the same happens for a valid coordinate: the distance is
    NaN, [NaN < Infinity] is false, and the flow is in the confirmation step
    with no suggestion. *)
Lemma matcher_no_match_is_silent :
  let w := JourneyData.mkWaypoint 0 "" JS.NaN (JS.Fin 130.8) ""
             (JS.Fin 0) (JS.Fin 0) "" "" in
  (nearestWaypoint (JS.Fin (-12.4)) (JS.Fin 130.8) [] = (None, JS.Infinity)
   /\ handleFile_try string
        (fun _ => GpsFound (JS.Fin (-12.4)) (JS.Fin 130.8)) []
        "photo.jpg" resetState
      = Return (mkState None (Some (JS.Fin (-12.4), JS.Fin 130.8)) None None
                  confirm_gps))
  /\ (nearestWaypoint (JS.Fin (-12.4)) (JS.Fin 130.8) [w] = (None, JS.Infinity)
      /\ handleFile_try string
           (fun _ => GpsFound (JS.Fin (-12.4)) (JS.Fin 130.8)) [w]
           "photo.jpg" resetState
         = Return (mkState None (Some (JS.Fin (-12.4), JS.Fin 130.8)) None None
                     confirm_gps)).
Proof.
  intros w.
  assert (Hscan : nearestWaypoint (JS.Fin (-12.4)) (JS.Fin 130.8) [w]
                  = (None, JS.Infinity)) by reflexivity.
  repeat split; try done; unfold handleFile_try;
    rewrite (proj2 (JSFacts.truthy_Fin (-12.4))) by lra;
    rewrite (proj2 (JSFacts.truthy_Fin 130.8)) by lra;
    cbn [andb]; [reflexivity | by rewrite Hscan].
Qed.

(** C4, as stated, fails: a latitude of 91 degrees is not rejected.  The scan
    runs, the only waypoint of the dataset is suggested and the flow enters
    the confirmation step. *)
Lemma out_of_range_is_matched :
  let w := waypointAt 0 (-12.4) 130.8 "" in
  handleFile string (fun f => f) (fun _ => GpsFound (JS.Fin 91) (JS.Fin 130.8)) [w]
    "photo.jpg" resetState
  = mkState (Some "photo.jpg") (Some (JS.Fin 91, JS.Fin 130.8)) (Some w)
      (Some "photo.jpg") confirm_gps.
Proof.
  intros w. unfold handleFile, handleFile_try.
  rewrite (proj2 (JSFacts.truthy_Fin 91)) by lra.
  rewrite (proj2 (JSFacts.truthy_Fin 130.8)) by lra.
  cbn [andb].
  change [w] with ([] ++ w :: []).
  rewrite scan_first_min; [reflexivity | | |].
  - unfold w. by rewrite dist_meridian by lra.
  - intros u Hu. by apply elem_of_nil in Hu.
  - intros u Hu. by apply elem_of_nil in Hu.
Qed.




(** ** Night-watch segments *)

Section NightRuns.

Variable hostParse : string -> option Z.

Lemma isNightUTC_spec (isoTime : string) :
  isNightUTC hostParse isoTime = true
  <-> exists h, JSDate.getUTCHours hostParse isoTime = Some h
        /\ (8 <= h < 21)%Z.
Proof.
  unfold isNightUTC.
  destruct (JSDate.getUTCHours hostParse isoTime) as [h|]; split.
  - intros [H1 H2]%andb_true_iff. exists h. split; [done | lia].
  - intros (h' & [= <-] & Hh). apply andb_true_iff. split; lia.
  - done.
  - by intros (h & ? & _).
Qed.

Section Payload.

Context {A : Type} (payload : nat -> Waypoint -> A).

(** The polylines already drawn are only ever extended. *)
Lemma night_loop_drawn (i : nat) (wps : list Waypoint)
    (seg : list A) (drawn : list (list A)) :
  night_loop hostParse payload i wps seg drawn
  = ((night_loop hostParse payload i wps seg []).1,
     drawn ++ (night_loop hostParse payload i wps seg []).2).
Proof.
  revert i seg drawn.
  induction wps as [|wp rest IH]; intros i seg drawn; cbn [night_loop].
  - cbn. by rewrite app_nil_r.
  - destruct (isNightUTC hostParse _); [apply IH|].
    rewrite IH, (IH _ _ (if (1 <? length seg)%nat then _ else _)). cbn [fst snd].
    f_equal. destruct (1 <? length seg)%nat; cbn [app]; by rewrite <- ?app_assoc.
Qed.

Lemma runsFrom_nil (i : nat) (seg : list A) :
  runsFrom hostParse payload i [] seg = flush seg.
Proof. reflexivity. Qed.

Lemma runsFrom_night (i : nat) (wp : Waypoint) (rest : list Waypoint)
    (seg : list A) :
  isNightUTC hostParse wp.(JourneyData.time) = true ->
  runsFrom hostParse payload i (wp :: rest) seg
  = runsFrom hostParse payload (S i) rest (seg ++ [payload i wp]).
Proof. intros H. unfold runsFrom. cbn [night_loop]. by rewrite H. Qed.

Lemma runsFrom_day (i : nat) (wp : Waypoint) (rest : list Waypoint)
    (seg : list A) :
  isNightUTC hostParse wp.(JourneyData.time) = false ->
  runsFrom hostParse payload i (wp :: rest) seg
  = flush seg ++ runsFrom hostParse payload (S i) rest [].
Proof.
  intros H. unfold runsFrom. cbn [night_loop]. rewrite H.
  rewrite night_loop_drawn. cbn [fst snd]. unfold flush at 2.
  destruct (1 <? length seg)%nat; by rewrite <- ?app_assoc.
Qed.

Lemma nightRuns_runsFrom (wps : list Waypoint) :
  nightRuns hostParse payload wps = runsFrom hostParse payload 0 wps [].
Proof.
  unfold nightRuns, runsFrom, flush.
  destruct (night_loop hostParse payload 0 wps [] []) as [seg drawn].
  cbn [fst snd]. destruct (1 <? length seg)%nat; [done | by rewrite app_nil_r].
Qed.

(** Every polyline drawn after the pending run has at least two points. *)
Lemma runsFrom_length (i : nat) (wps : list Waypoint) (seg : list A) :
  Forall (fun run => (2 <= length run)%nat) (runsFrom hostParse payload i wps seg).
Proof.
  assert (Hflush : forall seg0 : list A,
            Forall (fun run => (2 <= length run)%nat) (flush seg0)).
  { intros seg0. unfold flush.
    destruct (1 <? length seg0)%nat eqn:E; [|constructor].
    apply Nat.ltb_lt in E. repeat constructor. lia. }
  revert i seg. induction wps as [|wp rest IH]; intros i seg.
  - rewrite runsFrom_nil. apply Hflush.
  - destruct (isNightUTC hostParse wp.(JourneyData.time)) eqn:E.
    + rewrite runsFrom_night by done. apply IH.
    + rewrite runsFrom_day by done. apply Forall_app. split; [apply Hflush | apply IH].
Qed.

(** A maximal block of night waypoints followed by a day waypoint is drawn
    on its own, and the loop starts afresh after the day waypoint. *)
Lemma runsFrom_block (i : nat) (block : list Waypoint) (day : Waypoint)
    (rest : list Waypoint) (seg : list A) :
  Forall (fun wp => isNightUTC hostParse wp.(JourneyData.time) = true) block ->
  isNightUTC hostParse day.(JourneyData.time) = false ->
  runsFrom hostParse payload i (block ++ day :: rest) seg
  = flush (seg ++ imap (fun k wp => payload (i + k)%nat wp) block)
    ++ runsFrom hostParse payload (i + length block + 1)%nat rest [].
Proof.
  intros Hblock Hday. revert i seg.
  induction Hblock as [|wp block Hwp _ IH]; intros i seg.
  - cbn [app imap length]. rewrite runsFrom_day by done.
    rewrite app_nil_r. do 2 f_equal. lia.
  - cbn [app imap length]. rewrite runsFrom_night by done.
    rewrite IH, <- app_assoc. cbn [app]. rewrite Nat.add_0_r.
    f_equal.
    + do 3 f_equal. apply imap_ext. intros k x _. cbn. f_equal. lia.
    + f_equal. lia.
Qed.

(** A trailing block of night waypoints is drawn when the loop ends. *)
Lemma runsFrom_last_block (i : nat) (block : list Waypoint) (seg : list A) :
  Forall (fun wp => isNightUTC hostParse wp.(JourneyData.time) = true) block ->
  runsFrom hostParse payload i block seg
  = flush (seg ++ imap (fun k wp => payload (i + k)%nat wp) block).
Proof.
  intros Hblock. revert i seg.
  induction Hblock as [|wp block Hwp _ IH]; intros i seg.
  - cbn [imap]. by rewrite runsFrom_nil, app_nil_r.
  - cbn [imap]. rewrite runsFrom_night by done.
    rewrite IH, <- app_assoc. cbn [app]. rewrite Nat.add_0_r.
    do 3 f_equal. apply imap_ext. intros k x _. cbn. f_equal. lia.
Qed.

End Payload.

(** Changing what is pushed changes the polylines pointwise. *)
Lemma runsFrom_fmap {A B : Type} (payload : nat -> Waypoint -> A) (g : A -> B)
    (i : nat) (wps : list Waypoint) (seg : list A) :
  runsFrom hostParse (fun k wp => g (payload k wp)) i wps (g <$> seg)
  = (fmap g : list A -> list B) <$> runsFrom hostParse payload i wps seg.
Proof.
  assert (Hflush : forall seg0 : list A,
            flush (g <$> seg0) = (fmap g : list A -> list B) <$> flush seg0).
  { intros seg0. unfold flush. rewrite length_fmap.
    by destruct (1 <? length seg0)%nat. }
  revert i seg. induction wps as [|wp rest IH]; intros i seg.
  - by rewrite !runsFrom_nil.
  - destruct (isNightUTC hostParse wp.(JourneyData.time)) eqn:E.
    + rewrite !runsFrom_night by done. rewrite <- IH. f_equal.
      by rewrite fmap_app.
    + rewrite !runsFrom_day by done.
      rewrite fmap_app, <- Hflush. f_equal. apply (IH _ []).
Qed.

Lemma nightRuns_fmap {A B : Type} (payload : nat -> Waypoint -> A) (g : A -> B)
    (wps : list Waypoint) :
  nightRuns hostParse (fun k wp => g (payload k wp)) wps
  = (fmap g : list A -> list B) <$> nightRuns hostParse payload wps.
Proof. rewrite !nightRuns_runsFrom. apply (runsFrom_fmap payload g 0 wps []). Qed.

Lemma seq_strongly_sorted (s k : nat) : StronglySorted lt (seq s k).
Proof.
  revert s. induction k as [|k IH]; intros s; cbn [seq]; constructor.
  - apply IH.
  - apply Forall_forall. intros j Hj%elem_of_seq. lia.
Qed.

(** The positions drawn after collecting the run [seq s k]: every polyline
    is an interval of positions, and the positions increase along the
    polylines and from one polyline to the next. *)
Lemma runsFrom_positions (wps : list Waypoint) (s k : nat) :
  let runs := runsFrom hostParse (fun i _ => i) (s + k) wps (seq s k) in
  StronglySorted lt (concat runs)
  /\ Forall (fun j => s <= j < s + k + length wps)%nat (concat runs)
  /\ Forall (fun run => exists a, run = seq a (length run)) runs.
Proof.
  assert (Hflush : forall s0 k0,
    StronglySorted lt (concat (flush (seq s0 k0)))
    /\ Forall (fun j => s0 <= j < s0 + k0)%nat (concat (flush (seq s0 k0)))
    /\ Forall (fun run => exists a, run = seq a (length run)) (flush (seq s0 k0))).
  { intros s0 k0. unfold flush. destruct (1 <? length (seq s0 k0))%nat.
    - cbn [concat]. rewrite app_nil_r. split; [apply seq_strongly_sorted|].
      split.
      + apply Forall_forall. intros j Hj%elem_of_seq. lia.
      + repeat constructor. exists s0. by rewrite length_seq.
    - cbn [concat]. repeat split; constructor. }
  revert s k. induction wps as [|wp rest IH]; intros s k runs; subst runs.
  - rewrite runsFrom_nil. destruct (Hflush s k) as (Hs1 & Hr1 & Hi1).
    split; [done|]. split; [|done].
    eapply Forall_impl; [exact Hr1|]. cbn. intros; lia.
  - destruct (isNightUTC hostParse wp.(JourneyData.time)) eqn:E.
    + rewrite runsFrom_night by done.
      replace (seq s k ++ [(s + k)%nat]) with (seq s (S k)) by apply seq_S.
      replace (S (s + k)) with (s + S k)%nat by lia.
      destruct (IH s (S k)) as (Hsorted & Hrange & Hint).
      split; [done|]. split; [|done].
      eapply Forall_impl; [exact Hrange|]. cbn. intros; lia.
    + rewrite runsFrom_day by done.
      destruct (Hflush s k) as (Hs1 & Hr1 & Hi1).
      destruct (IH (S (s + k)) 0%nat) as (Hs2 & Hr2 & Hi2).
      rewrite Nat.add_0_r in Hs2, Hr2, Hi2. cbn [seq] in Hs2, Hr2, Hi2.
      rewrite Forall_forall in Hr1, Hr2.
      rewrite concat_app. split; [|split].
      * apply StronglySorted_app_2; [|done|done].
        intros x1 x2 Hx1%Hr1 Hx2%Hr2. lia.
      * apply Forall_app. split; apply Forall_forall.
        -- intros j Hj%Hr1. cbn [length]. lia.
        -- intros j Hj%Hr2. cbn [length]. lia.
      * apply Forall_app. by split.
Qed.

(** Every point of a drawn polyline is a night waypoint of the dataset, at
    the position recorded with it. *)
Lemma runsFrom_content (all wps : list Waypoint) (i : nat)
    (seg : list (nat * Waypoint)) :
  let P := fun jw : nat * Waypoint =>
             all !! jw.1 = Some jw.2
             /\ isNightUTC hostParse jw.2.(JourneyData.time) = true in
  wps = drop i all -> Forall P seg ->
  Forall (Forall P) (runsFrom hostParse (fun k wp => (k, wp)) i wps seg).
Proof.
  intros P.
  assert (Hflush : forall seg0, Forall P seg0 -> Forall (Forall P) (flush seg0)).
  { intros seg0 H0. unfold flush.
    destruct (1 <? length seg0)%nat; repeat constructor; done. }
  revert i seg. induction wps as [|wp rest IH]; intros i seg Hdrop Hseg.
  - rewrite runsFrom_nil. by apply Hflush.
  - assert (Hwp : all !! i = Some wp).
    { pose proof (lookup_drop all i 0) as H. rewrite <- Hdrop in H.
      rewrite Nat.add_0_r in H. by rewrite <- H. }
    assert (Hrest : rest = drop (S i) all).
    { replace (S i) with (i + 1)%nat by lia.
      rewrite <- drop_drop, <- Hdrop. reflexivity. }
    destruct (isNightUTC hostParse wp.(JourneyData.time)) eqn:E.
    + rewrite runsFrom_night by done. apply IH; [done|].
      apply Forall_app. split; [done|]. by repeat constructor.
    + rewrite runsFrom_day by done. apply Forall_app. split.
      * by apply Hflush.
      * apply IH; [done | constructor].
Qed.

(** In a concatenation whose elements increase, the elements of an earlier
    list are below the elements of a later one. *)
Lemma concat_sorted_pairwise (runs : list (list nat)) (k l : nat)
    (r r' : list nat) (x x' : nat) :
  StronglySorted lt (concat runs) ->
  (k < l)%nat -> runs !! k = Some r -> runs !! l = Some r' ->
  x ∈ r -> x' ∈ r' -> (x < x')%nat.
Proof.
  intros Hsorted Hkl Hk Hl Hx Hx'.
  rewrite <- (take_drop_middle runs l r' Hl), concat_app in Hsorted.
  cbn [concat] in Hsorted.
  eapply StronglySorted_app_1_elem_of; [exact Hsorted | |].
  - apply list_elem_of_In, in_concat. exists r. split; apply list_elem_of_In; [|done].
    apply list_elem_of_lookup. exists k. by rewrite lookup_take_lt.
  - apply elem_of_app. by left.
Qed.

Lemma nightWatch_layer (wps : list Waypoint) (top : option TopSpeed)
    (fast : option Fastest) (next : positive) (layers : gmap string LayerGroup) :
  buildHighlightLayers hostParse wps top fast next layers !! "nightWatch"
  = Some (mkLayerGroup next (Polyline <$> nightWatchSegments hostParse wps)).
Proof.
  unfold buildHighlightLayers.
  rewrite !lookup_insert_ne by done. by rewrite lookup_insert_eq.
Qed.

End NightRuns.

(** C5.  A waypoint is a night waypoint exactly when the UTC hour of its
    timestamp lies in [8, 21); for four waypoints at 00:00, 19:00, 20:00 and
    23:00 UTC the night-watch layer holds exactly one polyline, through the
    two waypoints of 19:00 and 20:00. *)
Theorem night_rule_and_example (hostParse : string -> option Z) :
  (forall isoTime : string,
     isNightUTC hostParse isoTime = true
     <-> exists h, JSDate.getUTCHours hostParse isoTime = Some h
           /\ (8 <= h < 21)%Z)
  /\ (forall p0 l0 p1 l1 p2 l2 p3 l3 : R,
        let w0 := waypointAt 0 p0 l0 "2026-02-11T00:00:00Z" in
        let w1 := waypointAt 1 p1 l1 "2026-02-11T19:00:00Z" in
        let w2 := waypointAt 2 p2 l2 "2026-02-11T20:00:00Z" in
        let w3 := waypointAt 3 p3 l3 "2026-02-11T23:00:00Z" in
        nightWatchSegments hostParse [w0; w1; w2; w3]
        = [[(JS.Fin p1, JS.Fin l1); (JS.Fin p2, JS.Fin l2)]]).
Proof.
  split; [apply isNightUTC_spec|].
  intros. reflexivity.
Qed.

(** C6.  On a time-ordered dataset the night-watch polylines are a function
    of the dataset alone: building the layer again, with whatever stamps and
    registry, gives the same polylines.  Every polyline runs through at least
    two waypoints, which are night waypoints at consecutive positions of the
    dataset; a night waypoint with no night neighbour is on no polyline; the
    waypoints of an earlier polyline come before those of a later one, in
    position and in time, so that no waypoint is on two polylines. *)
Theorem night_segments_well_formed (hostParse : string -> option Z)
    (wps : list Waypoint) :
  timeOrdered hostParse wps ->
  let night := fun w : Waypoint =>
                 isNightUTC hostParse w.(JourneyData.time) = true in
  let runs := nightWatchIndexed hostParse wps in
  nightWatchSegments hostParse wps
  = (fmap (fun jw : nat * Waypoint => latlng jw.2)
       : list (nat * Waypoint) -> list LatLng) <$> runs
  /\ (forall top fast next next' layers,
        let built := buildHighlightLayers hostParse wps top fast next layers in
        shapes <$> (built !! "nightWatch")
        = Some (Polyline <$> nightWatchSegments hostParse wps)
        /\ shapes <$> (buildHighlightLayers hostParse wps top fast next' built
                        !! "nightWatch")
           = shapes <$> (built !! "nightWatch"))
  /\ Forall (fun run =>
               (2 <= length run)%nat
               /\ (exists a, run.*1 = seq a (length run))
               /\ Forall (fun jw => wps !! jw.1 = Some jw.2 /\ night jw.2) run)
       runs
  /\ (forall (k l : nat) r r' (i i' : nat) (w w' : Waypoint),
        (k < l)%nat -> runs !! k = Some r -> runs !! l = Some r' ->
        (i, w) ∈ r -> (i', w') ∈ r' ->
        (i < i')%nat
        /\ exists t t', timeOf hostParse w = Some t
             /\ timeOf hostParse w' = Some t' /\ (t < t')%Z)
  /\ (forall (i : nat) (w : Waypoint),
        wps !! i = Some w ->
        (forall w', wps !! S i = Some w' -> ~ night w') ->
        (forall j w', i = S j -> wps !! j = Some w' -> ~ night w') ->
        forall run, run ∈ runs -> (i, w) ∉ run).
Proof.
  intros Hordered night runs.
  assert (Hruns : runs = runsFrom hostParse (fun k wp => (k, wp)) 0 wps [])
    by apply nightRuns_runsFrom.
  (* lengths, contents, positions *)
  assert (Hlen : Forall (fun run => (2 <= length run)%nat) runs)
    by (rewrite Hruns; apply runsFrom_length).
  assert (Hcontent :
    Forall (Forall (fun jw => wps !! jw.1 = Some jw.2 /\ night jw.2)) runs).
  { rewrite Hruns. apply (runsFrom_content hostParse wps wps 0 []);
      [done | constructor]. }
  assert (Hpos_eq : (fmap fst : list (nat * Waypoint) -> list nat) <$> runs
                    = runsFrom hostParse (fun i _ => i) (0 + 0) wps (seq 0 0)).
  { rewrite Hruns.
    symmetry. apply (runsFrom_fmap hostParse (fun k wp => (k, wp)) fst 0 wps []). }
  destruct (runsFrom_positions hostParse wps 0 0) as (Hsorted & _ & Hint).
  rewrite <- Hpos_eq in Hsorted, Hint.
  assert (Hseq : Forall (fun run : list (nat * Waypoint) =>
                           exists a, run.*1 = seq a (length run)) runs).
  { rewrite Forall_fmap in Hint. eapply Forall_impl; [exact Hint|].
    cbn. intros run [a Ha]. exists a. by rewrite length_fmap in Ha. }
  assert (Htime : forall w, night w -> exists t, timeOf hostParse w = Some t).
  { intros w (h & Hh & _)%isNightUTC_spec. unfold timeOf.
    unfold JSDate.getUTCHours in Hh.
    destruct (JSDate.parse hostParse w.(JourneyData.time)) as [t|]; [|done].
    by exists t. }
  split; [|split; [|split; [|split]]].
  - unfold nightWatchSegments, runs, nightWatchIndexed.
    apply (nightRuns_fmap hostParse (fun k wp => (k, wp))
             (fun jw : nat * Waypoint => latlng jw.2)).
  - intros top fast next next' layers built. subst built.
    by rewrite !nightWatch_layer.
  - rewrite Forall_forall in Hlen, Hcontent, Hseq.
    apply Forall_forall. intros run Hrun. auto.
  - intros k l r r' i i' w w' Hkl Hk Hl Hi Hi'.
    assert (Hlt : (i < i')%nat).
    { eapply (concat_sorted_pairwise _ k l (r.*1) (r'.*1)); [exact Hsorted|done| | | |].
      - by rewrite list_lookup_fmap, Hk.
      - by rewrite list_lookup_fmap, Hl.
      - apply list_elem_of_fmap. by exists (i, w).
      - apply list_elem_of_fmap. by exists (i', w'). }
    split; [done|].
    rewrite Forall_forall in Hcontent.
    pose proof (Hcontent r (list_elem_of_lookup_2 _ _ _ Hk)) as Hr.
    pose proof (Hcontent r' (list_elem_of_lookup_2 _ _ _ Hl)) as Hr'.
    rewrite Forall_forall in Hr, Hr'.
    destruct (Hr _ Hi) as [Hwi Hni]. destruct (Hr' _ Hi') as [Hwi' Hni'].
    cbn [fst snd] in *.
    destruct (Htime w Hni) as [t Ht]. destruct (Htime w' Hni') as [t' Ht'].
    exists t, t'. repeat split; try done.
    by apply (Hordered i i' w w').
  - intros i w Hi Hnext Hprev run Hrun Hin.
    rewrite Forall_forall in Hlen, Hcontent, Hseq.
    pose proof (Hlen run Hrun) as Hl2.
    destruct (Hseq run Hrun) as [a Ha].
    pose proof (Hcontent run Hrun) as Hc. rewrite Forall_forall in Hc.
    assert (Hia : (a <= i < a + length run)%nat).
    { apply elem_of_seq. rewrite <- Ha. apply list_elem_of_fmap. by exists (i, w). }
    assert (Hnb : forall j, (a <= j < a + length run)%nat ->
                    exists w', wps !! j = Some w' /\ night w').
    { intros j Hj. apply elem_of_seq in Hj. rewrite <- Ha in Hj.
      apply list_elem_of_fmap in Hj as ([j' w'] & -> & Hj).
      exists w'. apply (Hc _ Hj). }
    destruct (decide (S i < a + length run)%nat) as [Hright | Hleft].
    + destruct (Hnb (S i) ltac:(lia)) as (w' & Hw' & Hn'). by apply (Hnext w').
    + destruct i as [|j]; [lia|].
      destruct (Hnb j ltac:(lia)) as (w' & Hw' & Hn'). by apply (Hprev j w').
Qed.

Lemma exampleTrack_timeOrdered : timeOrdered strictHost exampleTrack.
Proof.
  intros i j wi wj ti tj Hij Hi Hj Hti Htj.
  destruct i as [|[|[|[|i]]]]; destruct j as [|[|[|[|j]]]];
    try lia; try done;
    injection Hi as <-; injection Hj as <-;
    vm_compute in Hti, Htj;
    injection Hti as <-; injection Htj as <-; lia.
Qed.

Lemma night_segments_well_formed_witness :
  timeOrdered strictHost exampleTrack
  /\ Forall (fun run =>
               (2 <= length run)%nat
               /\ (exists a, run.*1 = seq a (length run))
               /\ Forall (fun jw : nat * Waypoint =>
                            exampleTrack !! jw.1 = Some jw.2
                            /\ isNightUTC strictHost jw.2.(JourneyData.time) = true)
                    run)
       (nightWatchIndexed strictHost exampleTrack).
Proof.
  split; [exact exampleTrack_timeOrdered|].
  exact (proj1 (proj2 (proj2
           (night_segments_well_formed strictHost exampleTrack
              exampleTrack_timeOrdered)))).
Defined.

(** ** Layer visibility *)

Section Visibility.

Variable layers : gmap string LayerGroup.
Variable hs : HighlightState.

Lemma hasLayer_addLayer (m : gmap positive LayerGroup) (l : LayerGroup) :
  hasLayer (addLayer m l) l = true.
Proof.
  unfold addLayer. destruct (hasLayer m l) eqn:E; [done|].
  unfold hasLayer. apply bool_decide_eq_true. by rewrite lookup_insert_eq.
Qed.

Lemma hasLayer_removeLayer (m : gmap positive LayerGroup) (l : LayerGroup) :
  hasLayer (removeLayer m l) l = false.
Proof.
  unfold hasLayer, removeLayer. apply bool_decide_eq_false.
  rewrite lookup_delete_eq. by intros [? ?].
Qed.

Lemma hasLayer_addLayer_ne (m : gmap positive LayerGroup) (l l' : LayerGroup) :
  l'.(stamp) <> l.(stamp) -> hasLayer (addLayer m l') l = hasLayer m l.
Proof.
  intros Hne. unfold addLayer. destruct (hasLayer m l'); [done|].
  unfold hasLayer. by rewrite lookup_insert_ne.
Qed.

Lemma hasLayer_removeLayer_ne (m : gmap positive LayerGroup) (l l' : LayerGroup) :
  l'.(stamp) <> l.(stamp) -> hasLayer (removeLayer m l') l = hasLayer m l.
Proof.
  intros Hne. unfold hasLayer, removeLayer. by rewrite lookup_delete_ne.
Qed.

(** The eight calls of [setLayerVisibility], as a loop over the keys. *)
Lemma setLayerVisibility_fold (m : gmap positive LayerGroup) :
  setLayerVisibility layers m hs
  = fold_left (fun m k => toggleLayer layers m (keyName k) (flag hs k))
      highlightKeys m.
Proof. reflexivity. Qed.

Hypothesis Hdistinct : stampsDistinct layers.

Lemma toggle_same (m : gmap positive LayerGroup) (k : HighlightKey)
    (l : LayerGroup) (on : bool) :
  layers !! keyName k = Some l ->
  hasLayer (toggleLayer layers m (keyName k) on) l = on.
Proof.
  intros Hl. unfold toggleLayer. rewrite Hl.
  destruct on; [apply hasLayer_addLayer | apply hasLayer_removeLayer].
Qed.

Lemma toggle_other (m : gmap positive LayerGroup) (k k' : HighlightKey)
    (l : LayerGroup) (on : bool) :
  layers !! keyName k = Some l -> k' <> k ->
  hasLayer (toggleLayer layers m (keyName k') on) l = hasLayer m l.
Proof.
  intros Hl Hne. unfold toggleLayer.
  destruct (layers !! keyName k') as [l'|] eqn:Hl'; [|done].
  assert (l'.(stamp) <> l.(stamp))
    by (intros Heq; apply Hne; by apply (Hdistinct k' k l' l)).
  destruct on; [by apply hasLayer_addLayer_ne | by apply hasLayer_removeLayer_ne].
Qed.

Lemma fold_toggle_other (keys : list HighlightKey)
    (m : gmap positive LayerGroup) (k : HighlightKey) (l : LayerGroup) :
  layers !! keyName k = Some l -> k ∉ keys ->
  hasLayer (fold_left (fun m k => toggleLayer layers m (keyName k) (flag hs k))
              keys m) l
  = hasLayer m l.
Proof.
  intros Hl. revert m. induction keys as [|k' keys IH]; intros m Hnotin; [done|].
  apply not_elem_of_cons in Hnotin as [Hne Hnotin].
  cbn [fold_left]. rewrite IH by done. apply (toggle_other m k k' l); done.
Qed.

Lemma fold_toggle (keys : list HighlightKey)
    (m : gmap positive LayerGroup) (k : HighlightKey) (l : LayerGroup) :
  layers !! keyName k = Some l -> NoDup keys -> k ∈ keys ->
  hasLayer (fold_left (fun m k => toggleLayer layers m (keyName k) (flag hs k))
              keys m) l
  = flag hs k.
Proof.
  intros Hl. revert m.
  induction keys as [|k' keys IH]; intros m Hnodup Hin;
    [by apply elem_of_nil in Hin|].
  apply NoDup_cons in Hnodup as [Hnotin Hnodup]. cbn [fold_left].
  apply elem_of_cons in Hin as [-> | Hin].
  - rewrite (fold_toggle_other keys _ _ l Hl Hnotin). by apply toggle_same.
  - by apply IH.
Qed.

Lemma highlightKeys_NoDup : NoDup highlightKeys.
Proof. apply (bool_decide_unpack _). by vm_compute. Qed.

Lemma highlightKeys_all (k : HighlightKey) : k ∈ highlightKeys.
Proof. destruct k; apply (bool_decide_unpack _); by vm_compute. Qed.

(** After [setLayerVisibility] a registered highlight layer is on the map
    exactly when its flag is set. *)
Lemma setLayerVisibility_hasLayer (m : gmap positive LayerGroup)
    (k : HighlightKey) (l : LayerGroup) :
  layers !! keyName k = Some l ->
  hasLayer (setLayerVisibility layers m hs) l = flag hs k.
Proof.
  intros Hl. rewrite setLayerVisibility_fold.
  apply fold_toggle; [done | apply highlightKeys_NoDup | apply highlightKeys_all].
Qed.

Lemma setLayerVisibility_isActive (m : gmap positive LayerGroup)
    (k : HighlightKey) :
  isActive layers (setLayerVisibility layers m hs) k
  = flag hs k && registered layers k.
Proof.
  unfold isActive, registered.
  destruct (layers !! keyName k) as [l|] eqn:Hl.
  - rewrite (setLayerVisibility_hasLayer m k l Hl).
    rewrite bool_decide_eq_true_2 by eauto. by rewrite andb_true_r.
  - rewrite bool_decide_eq_false_2 by (by intros [? ?]). by rewrite andb_false_r.
Qed.

End Visibility.

(** The registry [buildMap] fills: every highlight key has its layer group,
    each a fresh object holding the geometry precomputed for the key. *)
Lemma buildHighlightLayers_lookup (hostParse : string -> option Z)
    (wps : list Waypoint) (top : option TopSpeed) (fast : option Fastest)
    (next : positive) (layers : gmap string LayerGroup) (k : HighlightKey) :
  buildHighlightLayers hostParse wps top fast next layers !! keyName k
  = Some (mkLayerGroup (keyStamp next k) (highlightShapes hostParse wps top fast k)).
Proof.
  unfold buildHighlightLayers.
  destruct k; cbn [keyName keyStamp highlightShapes];
    rewrite ?lookup_insert_ne by done; by rewrite lookup_insert_eq.
Qed.

Lemma buildHighlightLayers_distinct (hostParse : string -> option Z)
    (wps : list Waypoint) (top : option TopSpeed) (fast : option Fastest)
    (next : positive) (layers : gmap string LayerGroup) :
  stampsDistinct (buildHighlightLayers hostParse wps top fast next layers).
Proof.
  intros k k' l l'. rewrite !buildHighlightLayers_lookup.
  intros [= <-] [= <-]. cbn [stamp].
  destruct k, k'; cbn [keyStamp]; intros; try done; lia.
Qed.

(** On the registry [buildMap] fills, the geometry rendered for a key is the
    geometry precomputed for it when the flag is set, and nothing otherwise;
    without a top-speed record the top-speed layer renders nothing whatever
    its flag. *)
Lemma rendered_after_buildMap (hostParse : string -> option Z)
    (wps : list Waypoint) (top : option TopSpeed) (fast : option Fastest)
    (next : positive) (layers0 : gmap string LayerGroup)
    (map : gmap positive LayerGroup) (hs : HighlightState) (k : HighlightKey) :
  let layers := buildHighlightLayers hostParse wps top fast next layers0 in
  renderedShapes layers (setLayerVisibility layers map hs) k
  = if flag hs k then highlightShapes hostParse wps top fast k else [].
Proof.
  intros layers. unfold renderedShapes.
  pose proof (buildHighlightLayers_lookup hostParse wps top fast next layers0 k)
    as Hl. fold layers in Hl. rewrite Hl.
  rewrite (setLayerVisibility_hasLayer layers hs
             (buildHighlightLayers_distinct _ _ _ _ _ _) map k _ Hl).
  reflexivity.
Qed.

Lemma no_top_speed_no_geometry (hostParse : string -> option Z)
    (wps : list Waypoint) (fast : option Fastest) :
  highlightShapes hostParse wps None fast KTopSpeed = [].
Proof. reflexivity. Qed.

(** C7.  After [setLayerVisibility] the layer of a highlight key is on the
    map if and only if the flag of the key is set and a layer with the
    precomputed geometry of the key is registered; the geometry rendered for
    the key is then that precomputed geometry.  With all flags unset no
    highlight layer is on the map; with all flags set exactly the registered
    ones are. *)
Theorem overlay_layers_follow_flags (layers : gmap string LayerGroup)
    (map : gmap positive LayerGroup) (hs : HighlightState) :
  stampsDistinct layers ->
  let map' := setLayerVisibility layers map hs in
  (forall k, isActive layers map' k = true
             <-> flag hs k = true /\ is_Some (layers !! keyName k))
  /\ activeOverlayLayers layers map'
     = List.filter (fun k => flag hs k && registered layers k) highlightKeys
  /\ (forall k s,
        s ∈ renderedShapes layers map' k
        <-> flag hs k = true
            /\ exists l, layers !! keyName k = Some l /\ s ∈ l.(shapes))
  /\ (hs = allFlags false -> activeOverlayLayers layers map' = [])
  /\ (hs = allFlags true ->
      activeOverlayLayers layers map'
      = List.filter (registered layers) highlightKeys).
Proof.
  intros Hdistinct map'.
  assert (Hactive : forall k,
            isActive layers map' k = flag hs k && registered layers k)
    by (intros k; by apply setLayerVisibility_isActive).
  assert (Hfilter : activeOverlayLayers layers map'
            = List.filter (fun k => flag hs k && registered layers k) highlightKeys)
    by (unfold activeOverlayLayers; by apply List.filter_ext).
  split; [|split; [|split; [|split]]].
  - intros k. rewrite Hactive, andb_true_iff. unfold registered.
    by rewrite bool_decide_eq_true.
  - exact Hfilter.
  - intros k s. unfold renderedShapes.
    destruct (layers !! keyName k) as [l|] eqn:Hl.
    + unfold map'. rewrite (setLayerVisibility_hasLayer layers hs Hdistinct map k l Hl).
      destruct (flag hs k); split.
      * intros Hs. split; [done|]. by exists l.
      * by intros (_ & l' & [= <-] & Hs).
      * by intros Hs%elem_of_nil.
      * by intros [? _].
    + split; [by intros Hs%elem_of_nil | by intros (_ & l & ? & _)].
  - intros ->. rewrite Hfilter.
    rewrite (List.filter_ext _ (fun _ => false)); [done|]. by intros [].
  - intros ->. rewrite Hfilter. apply List.filter_ext. by intros [].
Qed.

Lemma overlay_layers_follow_flags_witness :
  let layers := buildHighlightLayers strictHost exampleTrack None None 1 ∅ in
  activeOverlayLayers layers (setLayerVisibility layers ∅ (allFlags true))
  = List.filter (registered layers) highlightKeys.
Proof.
  intros layers.
  refine (proj2 (proj2 (proj2 (proj2
            (overlay_layers_follow_flags layers ∅ (allFlags true) _)))) eq_refl).
  apply buildHighlightLayers_distinct.
Defined.

(** ** A worked distance *)

Section WorkedExample.

Local Open Scope R_scope.

Lemma PI_bounds : 3.14159 < PI < 3.1416.
Proof.
  pose proof (PI_2_3_7_ineq 3) as [Hlo Hhi].
  unfold sum_f_R0, tg_alt, PI_2_3_7_tg, Ratan_seq in Hlo, Hhi.
  cbn [Nat.mul Nat.add pow INR] in Hlo, Hhi.
  split; lra.
Qed.

Lemma sin_lower (x : R) : 0 <= x <= 1 -> x - x * x * x / 6 <= sin x.
Proof.
  intros [H0 H1].
  destruct (pre_sin_bound x 0 H0 ltac:(lra)) as [Hlb _].
  unfold sin_approx, sum_f_R0, sin_term in Hlb.
  cbn [Nat.mul Nat.add pow] in Hlb.
  rewrite !INR_IZR_INZ in Hlb.
  repeat match type of Hlb with
         | context [Z.of_nat ?n] =>
             let v := eval vm_compute in (Z.of_nat n) in
             change (Z.of_nat n) with v in Hlb
         end.
  lra.
Qed.

Lemma sin_upper (x : R) : 0 <= x -> sin x <= x.
Proof.
  intros [Hpos | <-]; [left; by apply sin_lt_x | rewrite sin_0; lra].
Qed.

Lemma asin_ge (z : R) : 0 <= z <= 1 -> z <= asin z.
Proof.
  intros [H0 H1]. rewrite <- (sin_asin z) at 1 by lra.
  apply sin_upper. by apply asin_nonneg.
Qed.

Lemma asin_le_of_sin (z y : R) :
  0 <= z -> z <= sin y -> 0 <= y <= PI / 2 -> asin z <= y.
Proof.
  intros Hz Hzy Hy. rewrite <- (asin_sin y) by lra.
  pose proof (SIN_bound y) as [_ ?]. apply asin_le; lra.
Qed.

Lemma sqrt_between (a lo hi : R) :
  0 <= lo -> 0 <= hi -> lo * lo <= a <= hi * hi -> lo <= sqrt a <= hi.
Proof.
  intros Hlo Hhi [H1 H2]. split.
  - rewrite <- (sqrt_square lo) by done. by apply sqrt_le_1_alt.
  - rewrite <- (sqrt_square hi) by done. by apply sqrt_le_1_alt.
Qed.

(** The distance from (0.1, 0.1) to (0, 0): about 8.49 nautical miles. *)
Lemma worked_distance_near :
  exists d, haversine (JS.Fin 0.1) (JS.Fin 0.1) (JS.Fin 0) (JS.Fin 0) = JS.Fin d
    /\ 8.49 < d < 8.495.
Proof.
  pose proof PI_bounds as [HPlo HPhi].
  rewrite haversine_Fin_value by (apply hav_arg_valid; lra).
  eexists; split; [reflexivity|].
  set (a := hav_arg 0.1 0.1 0 0).
  set (x := PI / 3600).
  set (s := sin x).
  assert (Ha : a = 2 * (s * s) * (1 - s * s)).
  { unfold a, hav_arg.
    replace ((0 + - (0.1)) * PI / 180 / 2) with (- x) by (unfold x; lra).
    replace (0.1 * PI / 180) with (2 * x) by (unfold x; lra).
    replace (0 * PI / 180) with 0 by lra.
    rewrite sin_neg, cos_0, cos_2a_sin. fold s. ring. }
  assert (Hx : 0.000872663 < x < 0.000872667) by (unfold x; split; lra).
  assert (Hs : 0.00087266 <= s <= 0.000872667).
  { split.
    - pose proof (sin_lower x ltac:(lra)) as Hl. fold s in Hl.
      assert (0 <= x * x <= 0.001 * 0.001) as [? ?] by (split; nra).
      assert (x * x * x <= 0.001 * 0.001 * 0.001)
        by (apply Rmult_le_compat; lra).
      lra.
    - pose proof (sin_upper x ltac:(lra)) as Hup. fold s in Hup. lra. }
  assert (Hu : 0.00087266 * 0.00087266 <= s * s <= 0.000872667 * 0.000872667)
    by (split; apply Rmult_le_compat; lra).
  assert (Hsq : 0.0012341 <= sqrt a <= 0.00123415).
  { apply sqrt_between; [lra | lra |]. rewrite Ha. split; nra. }
  assert (Hasin_lo : 0.0012341 <= asin (sqrt a)).
  { pose proof (asin_ge (sqrt a) ltac:(lra)). lra. }
  assert (Hasin_hi : asin (sqrt a) <= 0.0012342).
  { apply asin_le_of_sin; [lra | | lra].
    pose proof (sin_lower 0.0012342 ltac:(lra)). lra. }
  split; lra.
Qed.

(** The distance from (0.1, 0.1) to (1, 1) is more than 50 nautical miles. *)
Lemma worked_distance_far :
  exists d, haversine (JS.Fin 0.1) (JS.Fin 0.1) (JS.Fin 1) (JS.Fin 1) = JS.Fin d
    /\ 50 < d.
Proof.
  pose proof PI_bounds as [HPlo HPhi].
  pose proof (hav_arg_valid 0.1 0.1 1 1 ltac:(lra) ltac:(lra)) as Hrange.
  rewrite haversine_Fin_value by done.
  eexists; split; [reflexivity|].
  set (a := hav_arg 0.1 0.1 1 1) in *.
  set (z := PI / 400).
  set (v := sin z).
  assert (Hz : 0.00785 < z < 0.00786) by (unfold z; split; lra).
  assert (Hv : 0.0078 <= v).
  { pose proof (sin_lower z ltac:(lra)) as Hl. fold v in Hl.
    assert (0 <= z * z <= 0.01 * 0.01) as [? ?] by (split; nra).
    assert (z * z * z <= 0.01 * 0.01 * 0.01)
      by (apply Rmult_le_compat; lra).
    lra. }
  assert (Ha : v * v <= a).
  { unfold a, hav_arg.
    replace ((1 + - (0.1)) * PI / 180 / 2) with z by (unfold z; lra). fold v.
    pose proof (cos_deg_nonneg 0.1 ltac:(lra)).
    pose proof (cos_deg_nonneg 1 ltac:(lra)).
    pose proof (Rle_0_sqr v) as Hvv. unfold Rsqr in Hvv.
    assert (0 <= cos (0.1 * PI / 180) * cos (1 * PI / 180) * (v * v))
      by (repeat apply Rmult_le_pos; lra).
    lra. }
  assert (Hsq : 0.0078 <= sqrt a <= 1).
  { apply sqrt_between; [lra | lra |]. split; [nra | lra]. }
  pose proof (asin_ge (sqrt a) ltac:(lra)). lra.
Qed.

End WorkedExample.

(** The scan over two waypoints at finite distances, the first one not
    farther than the second. *)
Lemma scan_pair_first (lat lon : JS.number) (w0 w1 : Waypoint) (d0 d1 : R) :
  dist lat lon w0 = JS.Fin d0 -> dist lat lon w1 = JS.Fin d1 -> (d0 <= d1)%R ->
  nearestWaypoint lat lon [w0; w1] = (Some w0, JS.Fin d0).
Proof.
  intros H0 H1 Hle.
  rewrite <- H0. change [w0; w1] with ([] ++ w0 :: [w1]).
  apply scan_first_min.
  - by rewrite H0.
  - intros u Hu. by apply elem_of_nil in Hu.
  - intros u ->%list_elem_of_singleton. rewrite H0, H1.
    by apply JSFacts.lt_Fin_false.
Qed.

(** C9, as amended.  For the dataset [(0, 0), (1, 1)] and the query
    (0.1, 0.1) the matcher returns the first waypoint, at a distance of about
    8.49 nautical miles. *)
Theorem worked_example_match :
  let w0 := waypointAt 0 0 0 "" in
  let w1 := waypointAt 1 1 1 "" in
  exists d : R,
    nearestWaypoint (JS.Fin 0.1) (JS.Fin 0.1) [w0; w1] = (Some w0, JS.Fin d)
    /\ (8.49 < d < 8.495)%R.
Proof.
  intros w0 w1.
  destruct worked_distance_near as (d0 & Hd0 & Hr0).
  destruct worked_distance_far as (d1 & Hd1 & Hr1).
  exists d0. split; [|exact Hr0].
  apply (scan_pair_first (JS.Fin 0.1) (JS.Fin 0.1) w0 w1 d0 d1).
  - exact Hd0.
  - exact Hd1.
  - lra.
Qed.

(** C9, as stated, fails: the distance the matcher computes for the example
    is more than one nautical mile away from 9.95. *)
Lemma worked_example_not_9_95 :
  exists d : R,
    (nearestWaypoint (JS.Fin 0.1) (JS.Fin 0.1)
       [waypointAt 0 0 0 ""; waypointAt 1 1 1 ""]).2 = JS.Fin d
    /\ (1 < Rabs (d - 9.95))%R.
Proof.
  destruct worked_distance_near as (d0 & Hd0 & Hr0).
  destruct worked_distance_far as (d1 & Hd1 & Hr1).
  exists d0.
  rewrite (scan_pair_first (JS.Fin 0.1) (JS.Fin 0.1)
             (waypointAt 0 0 0 "") (waypointAt 1 1 1 "") d0 d1 Hd0 Hd1) by lra.
  split; [reflexivity|]. rewrite Rabs_left; lra.
Qed.

(** * Further properties *)

(** ** The photo-attachment flow, continued *)

Section UploadFlowMore.

Variable File : Type.
Variable fileType : File -> string.
Variable createObjectURL : File -> string.
Variable WAYPOINTS : list Waypoint.

(** The state [handleFile] ends in for a coordinate that passes the test. *)
Lemma handleFile_gps (exifr_gps : File -> GpsOutcome) (file : File)
    (st : State File) (lat lon : JS.number) :
  exifr_gps file = GpsFound lat lon ->
  JS.truthy lat = true -> JS.truthy lon = true ->
  handleFile File createObjectURL exifr_gps WAYPOINTS file st
  = mkState (Some (createObjectURL file)) (Some (lat, lon))
      (nearestWaypoint lat lon WAYPOINTS).1 (Some file) confirm_gps.
Proof.
  intros Hgps Hlat Hlon. unfold handleFile, handleFile_try.
  rewrite Hgps, Hlat, Hlon. cbn [andb].
  by destruct (nearestWaypoint lat lon WAYPOINTS) as [best bestDist].
Qed.

(** X1.  The waypoint suggested for a photo is a waypoint of the dataset,
    no waypoint of the dataset is strictly nearer to the photo, and the
    confirmation step offers exactly two targets: the suggestion and the
    waypoint the dialog was opened on. *)
Theorem suggestion_is_nearest (exifr_gps : File -> GpsOutcome) (file : File)
    (st : State File) (lat lon : JS.number) (w : Waypoint) :
  exifr_gps file = GpsFound lat lon ->
  JS.truthy lat = true -> JS.truthy lon = true ->
  let st' := handleFile File createObjectURL exifr_gps WAYPOINTS file st in
  st'.(suggestedWp) = Some w ->
  w ∈ WAYPOINTS
  /\ (forall u, u ∈ WAYPOINTS -> JS.lt (dist lat lon u) (dist lat lon w) = false)
  /\ forall waypoint, saveTargets waypoint st' = [w; waypoint].
Proof.
  intros Hgps Hlat Hlon st'. unfold st'.
  rewrite (handleFile_gps exifr_gps file st lat lon Hgps Hlat Hlon).
  cbn [suggestedWp]. intros Hbest.
  destruct (scan_min lat lon WAYPOINTS) as [Hlow [Hnone | (w' & Hw' & Hres & _)]].
  - rewrite Hnone in Hbest. done.
  - rewrite Hres in Hbest, Hlow. cbn [fst snd] in Hbest, Hlow.
    injection Hbest as <-. repeat split; try done.
    intros waypoint. unfold saveTargets. cbn. by rewrite Hres.
Qed.

(** X2.  A failure of the metadata extraction is not an error of the flow:
    when [exifr] throws, [handleFile] ends in the state it ends in for a photo
    without location metadata, with the file selected and its preview set. *)
Theorem extraction_failure_is_silent (exifr_throws exifr_none : File -> GpsOutcome)
    (file : File) (st : State File) :
  exifr_throws file = GpsThrows -> exifr_none file = GpsUndefined ->
  let st' := handleFile File createObjectURL exifr_throws WAYPOINTS file st in
  st' = handleFile File createObjectURL exifr_none WAYPOINTS file st
  /\ st'.(preview) = Some (createObjectURL file)
  /\ st'.(pendingFile) = Some file
  /\ st'.(step) = st.(step)
  /\ st'.(suggestedWp) = st.(suggestedWp).
Proof.
  intros Hthrow Hnone st'. unfold st'.
  rewrite (handleFile_no_gps File createObjectURL WAYPOINTS exifr_throws)
    by (by right).
  rewrite (handleFile_no_gps File createObjectURL WAYPOINTS exifr_none)
    by (by left).
  done.
Qed.

(** X3.  When the scan finds no waypoint (an empty dataset, or distances that
    are all NaN) the flow is in the confirmation step without a suggestion,
    and the dialog renders no save button at all. *)
Theorem no_suggestion_no_save_button (exifr_gps : File -> GpsOutcome)
    (file : File) (st : State File) (lat lon : JS.number) (waypoint : Waypoint) :
  exifr_gps file = GpsFound lat lon ->
  JS.truthy lat = true -> JS.truthy lon = true ->
  (nearestWaypoint lat lon WAYPOINTS).1 = None ->
  let st' := handleFile File createObjectURL exifr_gps WAYPOINTS file st in
  st'.(step) = confirm_gps /\ saveTargets waypoint st' = [].
Proof.
  intros Hgps Hlat Hlon Hnone st'. unfold st'.
  rewrite (handleFile_gps exifr_gps file st lat lon Hgps Hlat Hlon).
  unfold saveTargets. cbn. by rewrite Hnone.
Qed.

(** X4.  Once a file was chosen, a save stores the preview of that file
    under the index of its target, leaves the images of all other waypoints
    alone and resets the dialog; a further save on the reset dialog does
    nothing. *)
Theorem save_stores_preview (exifr_gps : File -> GpsOutcome) (file : File)
    (st : State File) (target : Waypoint) (waypointImages : gmap nat string) :
  let st' := handleFile File createObjectURL exifr_gps WAYPOINTS file st in
  let saved := saveToWaypoint target st' waypointImages in
  saved.1 = resetState
  /\ saved.2 = handleImageSaved target.(JourneyData.index)
                 (createObjectURL file) waypointImages
  /\ saved.2 !! target.(JourneyData.index) = Some (createObjectURL file)
  /\ (forall i, i <> target.(JourneyData.index) ->
        saved.2 !! i = waypointImages !! i)
  /\ forall other, saveToWaypoint other saved.1 saved.2 = saved.
Proof.
  intros st' saved.
  assert (Hpreview : st'.(preview) = Some (createObjectURL file)).
  { unfold st', handleFile, handleFile_try.
    destruct (exifr_gps file) as [| |latitude longitude]; try done.
    destruct (JS.truthy latitude && JS.truthy longitude); [|done].
    by destruct (nearestWaypoint latitude longitude WAYPOINTS). }
  assert (Hsaved : saved = (resetState, <[target.(JourneyData.index) :=
                      createObjectURL file]> waypointImages)).
  { unfold saved, saveToWaypoint. by rewrite Hpreview. }
  rewrite Hsaved. cbn [fst snd]. repeat split.
  - by rewrite lookup_insert_eq.
  - intros i Hi. by rewrite lookup_insert_ne.
Qed.


End UploadFlowMore.

Lemma suggestion_is_nearest_witness :
  let w0 := waypointAt 0 (-15) 131 "" in
  let w1 := waypointAt 1 (-13) 131 "" in
  w1 ∈ [w0; w1]
  /\ (forall u, u ∈ [w0; w1] ->
        JS.lt (dist (JS.Fin (-12)) (JS.Fin 131) u)
              (dist (JS.Fin (-12)) (JS.Fin 131) w1) = false)
  /\ forall waypoint,
       saveTargets waypoint
         (handleFile string (fun f => f)
            (fun _ => GpsFound (JS.Fin (-12)) (JS.Fin 131)) [w0; w1]
            "photo.jpg" resetState)
       = [w1; waypoint].
Proof.
  intros w0 w1.
  assert (H0 : dist (JS.Fin (-12)) (JS.Fin 131) w0
               = JS.Fin (3440.065 * (3 * PI / 180))).
  { unfold w0. rewrite dist_meridian by lra. do 3 f_equal.
    rewrite Rabs_left; lra. }
  assert (H1 : dist (JS.Fin (-12)) (JS.Fin 131) w1
               = JS.Fin (3440.065 * (1 * PI / 180))).
  { unfold w1. rewrite dist_meridian by lra. do 3 f_equal.
    rewrite Rabs_left; lra. }
  assert (Hscan : nearestWaypoint (JS.Fin (-12)) (JS.Fin 131) [w0; w1]
                  = (Some w1, dist (JS.Fin (-12)) (JS.Fin 131) w1)).
  { change [w0; w1] with ([w0] ++ w1 :: []).
    apply scan_first_min; [by rewrite H1 | |].
    - intros u ->%list_elem_of_singleton. right. rewrite H0, H1.
      apply JSFacts.lt_Fin. pose proof PI_RGT_0. lra.
    - intros u Hu. by apply elem_of_nil in Hu. }
  apply (suggestion_is_nearest string (fun f => f) [w0; w1]
           (fun _ => GpsFound (JS.Fin (-12)) (JS.Fin 131))
           "photo.jpg" resetState (JS.Fin (-12)) (JS.Fin 131) w1).
  - reflexivity.
  - apply JSFacts.truthy_Fin. lra.
  - apply JSFacts.truthy_Fin. lra.
  - rewrite (handleFile_gps string (fun f => f) [w0; w1] _ "photo.jpg"
               resetState (JS.Fin (-12)) (JS.Fin 131) eq_refl)
      by (apply JSFacts.truthy_Fin; lra).
    cbn [suggestedWp]. by rewrite Hscan.
Defined.

Lemma extraction_failure_is_silent_witness :
  let st' := handleFile string (fun f => f) (fun _ => GpsThrows)
               exampleTrack "photo.jpg" resetState in
  st' = handleFile string (fun f => f) (fun _ => GpsUndefined)
          exampleTrack "photo.jpg" resetState
  /\ st'.(preview) = Some "photo.jpg"
  /\ st'.(pendingFile) = Some "photo.jpg"
  /\ st'.(step) = upload
  /\ st'.(suggestedWp) = None.
Proof.
  apply (extraction_failure_is_silent string (fun f => f) exampleTrack
           (fun _ => GpsThrows) (fun _ => GpsUndefined) "photo.jpg" resetState);
    reflexivity.
Defined.

Lemma no_suggestion_no_save_button_witness :
  let st' := handleFile string (fun f => f)
               (fun _ => GpsFound (JS.Fin (-12)) (JS.Fin 131)) []
               "photo.jpg" resetState in
  st'.(step) = confirm_gps
  /\ saveTargets (waypointAt 0 (-12) 131 "") st' = [].
Proof.
  apply (no_suggestion_no_save_button string (fun f => f) []
           (fun _ => GpsFound (JS.Fin (-12)) (JS.Fin 131))
           "photo.jpg" resetState (JS.Fin (-12)) (JS.Fin 131)).
  - reflexivity.
  - apply JSFacts.truthy_Fin. lra.
  - apply JSFacts.truthy_Fin. lra.
  - reflexivity.
Defined.


(** ** The page *)

Lemma flag_handleHighlightChange (key k : HighlightKey) (value : bool)
    (prev : HighlightState) :
  flag (handleHighlightChange key value prev) k
  = if decide (k = key) then value else flag prev k.
Proof. by destruct key, k. Qed.

(** X6.  A switch of the side panel changes the flag of its own key and no
    other; "Show All" and "Hide All" leave every flag set, respectively
    unset, whatever the toggle set was. *)
Theorem toggles_set_flags (key : HighlightKey) (value : bool)
    (prev : HighlightState) :
  flag (handleHighlightChange key value prev) key = value
  /\ (forall k, k <> key ->
        flag (handleHighlightChange key value prev) k = flag prev k)
  /\ setAllHighlights value prev = allFlags value.
Proof.
  split; [|split].
  - rewrite flag_handleHighlightChange. by rewrite decide_True.
  - intros k Hk. rewrite flag_handleHighlightChange. by rewrite decide_False.
  - by destruct prev.
Qed.

(** X7.  When every waypoint is stored at the position its [index] names,
    the popup button of a waypoint selects that very waypoint for the upload
    dialog; an index beyond the dataset leaves the selection as it was. *)
Theorem upload_event_selects_waypoint (WAYPOINTS : list Waypoint)
    (selected : option Waypoint) :
  (forall i wp, WAYPOINTS !! i = Some wp -> wp.(JourneyData.index) = i) ->
  (forall wp, wp ∈ WAYPOINTS ->
     wpUploadHandler WAYPOINTS (popupDetail wp) selected = Some wp)
  /\ (forall detail, (length WAYPOINTS <= detail)%nat ->
        wpUploadHandler WAYPOINTS detail selected = selected).
Proof.
  intros Hindex. split.
  - intros wp [i Hi]%list_elem_of_lookup. unfold wpUploadHandler, popupDetail.
    by rewrite (Hindex i wp Hi), Hi.
  - intros detail Hlen. unfold wpUploadHandler.
    by rewrite lookup_ge_None_2.
Qed.

Lemma upload_event_selects_waypoint_witness :
  wpUploadHandler exampleTrack
    (popupDetail (waypointAt 2 (-12.05) 131.30 "2026-02-11T20:00:00Z")) None
  = Some (waypointAt 2 (-12.05) 131.30 "2026-02-11T20:00:00Z").
Proof.
  refine (proj1 (upload_event_selects_waypoint exampleTrack None _) _ _).
  - intros i wp Hi.
    destruct i as [|[|[|[|i]]]]; try done; by injection Hi as <-.
  - unfold exampleTrack. rewrite !elem_of_cons. right. right. by left.
Defined.

(** ** Layer visibility, continued *)

Section VisibilityMore.

Variable layers : gmap string LayerGroup.

Lemma hasLayer_false (m : gmap positive LayerGroup) (l : LayerGroup) :
  hasLayer m l = false <-> m !! l.(stamp) = None.
Proof.
  unfold hasLayer. rewrite bool_decide_eq_false, <- eq_None_not_Some. done.
Qed.

Lemma toggleLayer_other_stamp (m : gmap positive LayerGroup) (key : string)
    (on : bool) (l : LayerGroup) :
  (forall l', layers !! key = Some l' -> l'.(stamp) <> l.(stamp)) ->
  hasLayer (toggleLayer layers m key on) l = hasLayer m l.
Proof.
  intros Hne. unfold toggleLayer.
  destruct (layers !! key) as [l'|]; [|done].
  specialize (Hne l' eq_refl).
  destruct on; [by apply hasLayer_addLayer_ne | by apply hasLayer_removeLayer_ne].
Qed.

(** A toggle that asks for what the map already shows changes nothing. *)
Lemma toggleLayer_settled (m : gmap positive LayerGroup) (key : string)
    (on : bool) :
  (forall l, layers !! key = Some l -> hasLayer m l = on) ->
  toggleLayer layers m key on = m.
Proof.
  intros Hset. unfold toggleLayer.
  destruct (layers !! key) as [l|]; [|done].
  specialize (Hset l eq_refl). destruct on.
  - unfold addLayer. by rewrite Hset.
  - unfold removeLayer. apply delete_id. by apply hasLayer_false.
Qed.

Lemma setLayerVisibility_other (map : gmap positive LayerGroup)
    (hs : HighlightState) (l : LayerGroup) :
  (forall k l', layers !! keyName k = Some l' -> l'.(stamp) <> l.(stamp)) ->
  hasLayer (setLayerVisibility layers map hs) l = hasLayer map l.
Proof.
  intros Hne. rewrite setLayerVisibility_fold.
  generalize highlightKeys. intros keys. revert map.
  induction keys as [|k keys IH]; intros map; [done|].
  cbn [fold_left]. rewrite IH.
  apply toggleLayer_other_stamp. intros l'. apply Hne.
Qed.

(** X8.  [setLayerVisibility] touches the highlight layers only: a layer that
    is none of the layer groups registered under the highlight keys (the leg
    layer, the waypoint layer, the tiles) is on the map afterwards exactly
    when it was before. *)
Theorem visibility_leaves_other_layers (map : gmap positive LayerGroup)
    (hs : HighlightState) (l : LayerGroup) :
  (forall k l', layers !! keyName k = Some l' -> l'.(stamp) <> l.(stamp)) ->
  hasLayer (setLayerVisibility layers map hs) l = hasLayer map l.
Proof. apply setLayerVisibility_other. Qed.

(** X9.  Applying a toggle set a second time changes nothing on the map, and
    what the map shows of the highlight layers depends on the last toggle set
    applied only, not on the ones applied before. *)
Theorem visibility_idempotent (map : gmap positive LayerGroup)
    (hs hs0 : HighlightState) :
  stampsDistinct layers ->
  setLayerVisibility layers (setLayerVisibility layers map hs) hs
  = setLayerVisibility layers map hs
  /\ forall k l, layers !! keyName k = Some l ->
       hasLayer (setLayerVisibility layers
                   (setLayerVisibility layers map hs0) hs) l
       = hasLayer (setLayerVisibility layers map hs) l.
Proof.
  intros Hdistinct. split.
  - set (m' := setLayerVisibility layers map hs).
    assert (Hset : forall k l, layers !! keyName k = Some l ->
                     hasLayer m' l = flag hs k)
      by (intros k l Hl; by apply setLayerVisibility_hasLayer).
    rewrite (setLayerVisibility_fold layers hs m').
    generalize highlightKeys. intros keys.
    induction keys as [|k keys IH]; [done|].
    cbn [fold_left]. rewrite toggleLayer_settled; [exact IH|].
    intros l Hl. by apply Hset.
  - intros k l Hl.
    by rewrite !(setLayerVisibility_hasLayer layers hs Hdistinct _ k l Hl).
Qed.

End VisibilityMore.

Lemma visibility_leaves_other_layers_witness :
  let layers := buildHighlightLayers strictHost exampleTrack None None 4 ∅ in
  let legs := mkLayerGroup 3 (legShapes exampleTrack) in
  hasLayer (setLayerVisibility layers (addLayer ∅ legs) (allFlags false)) legs
  = hasLayer (addLayer ∅ legs) legs.
Proof.
  intros layers legs.
  apply (visibility_leaves_other_layers layers (addLayer ∅ legs)
           (allFlags false) legs).
  intros k l'. unfold layers. rewrite buildHighlightLayers_lookup.
  intros [= <-]. unfold legs. cbn [stamp]. destruct k; cbn [keyStamp]; lia.
Defined.

Lemma visibility_idempotent_witness :
  let layers := buildHighlightLayers strictHost exampleTrack None None 1 ∅ in
  setLayerVisibility layers (setLayerVisibility layers ∅ (allFlags true))
    (allFlags true)
  = setLayerVisibility layers ∅ (allFlags true).
Proof.
  intros layers.
  refine (proj1 (visibility_idempotent layers ∅ (allFlags true)
                   (allFlags true) _)).
  apply buildHighlightLayers_distinct.
Defined.

(** ** The waypoint layer and the zoom level *)

Lemma JS_ge_not_lt (x y : JS.number) :
  x <> JS.NaN -> y <> JS.NaN -> JS.lt x y = negb (JS_ge x y).
Proof.
  destruct x, y; cbn; try done.
  intros _ _. destruct (Rlt_dec r r0), (Rle_dec r0 r); try done; lra.
Qed.

(** X10.  The waypoint layer is on the map exactly when the zoom level is at
    least 9, which is exactly when the footer of the side panel says that the
    markers are visible; no other layer is added or removed; the hint of the
    side panel is shown exactly when the layer is not, for every zoom level
    but NaN. *)
Theorem waypoint_layer_follows_zoom (wpLayer : LayerGroup)
    (map : gmap positive LayerGroup) (zoom : JS.number) :
  let map' := setWaypointLayerVisibility (Some wpLayer) map zoom in
  hasLayer map' wpLayer = footerSaysVisible zoom
  /\ (forall r, zoom = JS.Fin r -> (hasLayer map' wpLayer = true <-> (9 <= r)%R))
  /\ (forall l, l.(stamp) <> wpLayer.(stamp) -> hasLayer map' l = hasLayer map l)
  /\ (zoom <> JS.NaN -> showsZoomHint zoom = negb (hasLayer map' wpLayer)).
Proof.
  intros map'.
  assert (Hlayer : hasLayer map' wpLayer = footerSaysVisible zoom).
  { unfold map', setWaypointLayerVisibility, footerSaysVisible.
    destruct (JS_ge zoom (JS.Fin 9));
      [apply hasLayer_addLayer | apply hasLayer_removeLayer]. }
  split; [exact Hlayer|]. split; [|split].
  - intros r ->. rewrite Hlayer. unfold footerSaysVisible. cbn.
    destruct (Rle_dec 9 r); split; intros; try done.
  - intros l Hne. unfold map', setWaypointLayerVisibility.
    destruct (JS_ge zoom (JS.Fin 9));
      [by apply hasLayer_addLayer_ne | by apply hasLayer_removeLayer_ne].
  - intros Hnan. rewrite Hlayer. unfold showsZoomHint, footerSaysVisible.
    by apply JS_ge_not_lt.
Qed.

(** ** The fastest-six-hours layer *)

(** X11.  On a dataset whose coordinates Leaflet accepts, the polyline of the
    fastest-six-hours layer runs through the waypoints at the positions
    [fromIdx] to [toIdx], as far as they exist in the dataset; it is drawn
    even when there are none.  The label marker is drawn exactly when the
    polyline has a point, and it then sits on a point of the polyline. *)
Theorem fastest6h_geometry (wps : list Waypoint) (r : Fastest) :
  Forall (fun wp => plottable (latlng wp)) wps ->
  let pts := latlng <$> slice wps r.(fromIdx) (r.(toIdx) + 1) in
  (forall k : nat,
     pts !! k = if decide (r.(fromIdx) + k <= r.(toIdx))%nat
                then latlng <$> wps !! (r.(fromIdx) + k)%nat else None)
  /\ length pts = (Nat.min (r.(toIdx) + 1) (length wps) - r.(fromIdx))%nat
  /\ exists markers,
       fastest6hShapes wps (Some r) = Polyline pts :: markers
       /\ (pts = [] -> markers = [])
       /\ (pts <> [] -> exists mid, markers = [Marker mid] /\ mid ∈ pts).
Proof.
  intros _ pts. split; [|split].
  - intros k. unfold pts, slice. rewrite list_lookup_fmap.
    destruct (decide (r.(fromIdx) + k <= r.(toIdx))%nat) as [Hle | Hgt].
    + rewrite lookup_take_lt by lia. by rewrite lookup_drop.
    + by rewrite lookup_take_ge by lia.
  - unfold pts, slice. rewrite length_fmap, length_take, length_drop. lia.
  - unfold fastest6hShapes. fold pts.
    destruct (0 <? length pts)%nat eqn:Hlen.
    + apply Nat.ltb_lt in Hlen.
      assert (Hmid : (length pts / 2 < length pts)%nat)
        by (apply Nat.div_lt; lia).
      destruct (lookup_lt_is_Some_2 pts _ Hmid) as [mid Hlookup].
      rewrite Hlookup. eexists. split; [reflexivity|]. split.
      * intros Hnil. rewrite Hnil in Hlen. cbn in Hlen. lia.
      * intros _. exists mid. split; [done|].
        by apply list_elem_of_lookup_2 with (length pts / 2)%nat.
    + apply Nat.ltb_ge in Hlen.
      eexists. split; [reflexivity|]. split; [done|].
      intros Hne. destruct pts; [done | cbn in Hlen; lia].
Qed.

(** ** The leg lines *)

Section LegGroups.

Implicit Types groups : list (string * list LatLng).

Lemma pushLeg_keys (k : string) (c : LatLng) groups :
  (pushLeg k c groups).*1
  = if decide (k ∈ groups.*1) then groups.*1 else groups.*1 ++ [k].
Proof.
  induction groups as [|[k0 cs0] rest IH]; [done|].
  cbn [pushLeg]. destruct (String.eqb_spec k0 k) as [-> | Hne].
  - cbn. rewrite decide_True by (by left). done.
  - cbn [fmap list_fmap fst]. change (list_fmap _ _ fst ?l) with (l.*1).
    rewrite IH. destruct (decide (k ∈ rest.*1)) as [Hin | Hnotin].
    + rewrite decide_True by (by right). done.
    + rewrite decide_False; [done|].
      intros [? | ?]%elem_of_cons; [by apply Hne | done].
Qed.

Lemma pushLeg_NoDup (k : string) (c : LatLng) groups :
  NoDup groups.*1 -> NoDup (pushLeg k c groups).*1.
Proof.
  intros Hnd. rewrite pushLeg_keys.
  destruct (decide (k ∈ groups.*1)); [done|].
  apply NoDup_app. repeat split; [done | | apply NoDup_singleton].
  intros x Hx ->%list_elem_of_singleton. done.
Qed.

(** [pushLeg] on the object read as a map. *)
Lemma pushLeg_lookup (k : string) (c : LatLng) groups :
  (list_to_map (pushLeg k c groups) : gmap string (list LatLng))
  = <[k := default [] ((list_to_map groups : gmap string (list LatLng)) !! k)
            ++ [c]]> (list_to_map groups).
Proof.
  induction groups as [|[k0 cs0] rest IH]; [done|].
  cbn [pushLeg]. destruct (String.eqb_spec k0 k) as [-> | Hne].
  - cbn [list_to_map foldr]. cbn. rewrite lookup_insert_eq. cbn.
    by rewrite insert_insert_eq.
  - cbn [list_to_map foldr]. cbn.
    change (foldr _ ∅ ?l) with (list_to_map l : gmap string (list LatLng)).
    rewrite IH, lookup_insert_ne by done.
    by apply insert_insert_ne.
Qed.

Lemma pushLeg_concat (k : string) (c : LatLng) groups :
  concat (pushLeg k c groups).*2 ≡ₚ concat groups.*2 ++ [c].
Proof.
  induction groups as [|[k0 cs0] rest IH]; [done|].
  cbn [pushLeg]. destruct (String.eqb k0 k); cbn.
  - change (list_fmap _ _ snd ?l) with (l.*2).
    rewrite <- !app_assoc. apply Permutation_app_head.
    apply Permutation_app_comm.
  - change (list_fmap _ _ snd ?l) with (l.*2).
    rewrite IH. by rewrite app_assoc.
Qed.

Lemma legGroups_snoc (wps : list Waypoint) (wp : Waypoint) :
  legGroups (wps ++ [wp])
  = pushLeg wp.(JourneyData.leg) (latlng wp) (legGroups wps).
Proof. unfold legGroups. by rewrite fold_left_app. Qed.

Lemma legCoords_snoc (k : string) (wps : list Waypoint) (wp : Waypoint) :
  legCoords k (wps ++ [wp])
  = if decide (wp.(JourneyData.leg) = k)
    then legCoords k wps ++ [latlng wp] else legCoords k wps.
Proof.
  unfold legCoords. rewrite filter_app, fmap_app.
  destruct (decide (wp.(JourneyData.leg) = k)) as [Heq | Hne].
  - by rewrite filter_cons_True.
  - rewrite filter_cons_False by done. cbn. by rewrite app_nil_r.
Qed.

Lemma legGroups_lookup (wps : list Waypoint) (k : string) :
  (list_to_map (legGroups wps) : gmap string (list LatLng)) !! k
  = if decide (legCoords k wps = []) then None else Some (legCoords k wps).
Proof.
  induction wps as [|wp wps IH] using rev_ind; [done|].
  rewrite legGroups_snoc, pushLeg_lookup, legCoords_snoc.
  destruct (decide (wp.(JourneyData.leg) = k)) as [-> | Hne].
  - rewrite lookup_insert_eq, IH.
    rewrite (decide_False (P := legCoords k wps ++ [latlng wp] = []))
      by (intros [_ [=]]%app_eq_nil).
    destruct (decide (legCoords _ wps = [])) as [Hnil | ?];
      [by rewrite Hnil | done].
  - by rewrite lookup_insert_ne.
Qed.

Lemma legGroups_NoDup (wps : list Waypoint) : NoDup (legGroups wps).*1.
Proof.
  induction wps as [|wp wps IH] using rev_ind; [constructor|].
  rewrite legGroups_snoc. by apply pushLeg_NoDup.
Qed.

(** X12.  The leg lines partition the track, when no leg is named like a
    property of [Object.prototype]: the leg names of the groups are pairwise
    different, the group of a name holds the coordinates of exactly the
    waypoints with that leg name, in the order of the dataset, no group is
    empty, and together the groups hold every waypoint once. *)
Theorem legGroups_partition (wps : list Waypoint) :
  Forall (fun wp => wp.(JourneyData.leg) ∉ objectPrototypeNames) wps ->
  NoDup (legGroups wps).*1
  /\ (forall k coords,
        (k, coords) ∈ legGroups wps
        <-> coords = legCoords k wps /\ coords <> [])
  /\ concat (legGroups wps).*2 ≡ₚ latlng <$> wps.
Proof.
  intros _. split; [apply legGroups_NoDup|]. split.
  - intros k coords.
    rewrite (elem_of_list_to_map (M := gmap string)) by apply legGroups_NoDup.
    rewrite legGroups_lookup.
    destruct (decide (legCoords k wps = [])) as [Hnil | Hne]; split.
    + done.
    + intros [-> ?]. done.
    + intros [= <-]. done.
    + by intros [-> _].
  - induction wps as [|wp wps IH] using rev_ind; [done|].
    by rewrite legGroups_snoc, pushLeg_concat, IH, fmap_app.
Qed.

End LegGroups.

Lemma exampleTrack_drawable : Forall drawable exampleTrack.
Proof.
  unfold exampleTrack.
  repeat (constructor;
            [split; [by split | split; [|reflexivity];
                     apply (bool_decide_unpack _); by vm_compute]|]).
  constructor.
Qed.

Lemma fastest6h_geometry_witness :
  let r := mkFastest 1 2 (JS.Fin 7.5) in
  let pts := latlng <$> slice exampleTrack r.(fromIdx) (r.(toIdx) + 1) in
  (forall k : nat,
     pts !! k = if decide (r.(fromIdx) + k <= r.(toIdx))%nat
                then latlng <$> exampleTrack !! (r.(fromIdx) + k)%nat else None)
  /\ length pts = (Nat.min (r.(toIdx) + 1) (length exampleTrack) - r.(fromIdx))%nat
  /\ exists markers,
       fastest6hShapes exampleTrack (Some r) = Polyline pts :: markers
       /\ (pts = [] -> markers = [])
       /\ (pts <> [] -> exists mid, markers = [Marker mid] /\ mid ∈ pts).
Proof.
  intros r.
  apply (fastest6h_geometry exampleTrack r).
  eapply Forall_impl; [apply exampleTrack_drawable|]. by intros wp [? _].
Defined.

Lemma legGroups_partition_witness :
  NoDup (legGroups exampleTrack).*1
  /\ (forall k coords,
        (k, coords) ∈ legGroups exampleTrack
        <-> coords = legCoords k exampleTrack /\ coords <> [])
  /\ concat (legGroups exampleTrack).*2 ≡ₚ latlng <$> exampleTrack.
Proof.
  apply (legGroups_partition exampleTrack).
  eapply Forall_impl; [apply exampleTrack_drawable|]. by intros wp (_ & ? & _).
Defined.

(** ** Building the map *)

Section BuildMapFacts.

Variable hostParse : string -> option Z.
Variable WAYPOINTS : list Waypoint.
Variable TOP_SPEED_1H : option TopSpeed.
Variable FASTEST_6H : option Fastest.

Lemma hasLayer_empty (l : LayerGroup) : hasLayer ∅ l = false.
Proof. apply hasLayer_false. apply lookup_empty. Qed.

(** The registry after [buildMap] has passed its guard. *)
Lemma built_registry_lookup (next : positive) (layers0 : gmap string LayerGroup)
    (legLayer : LayerGroup) (k : HighlightKey) :
  buildHighlightLayers hostParse WAYPOINTS TOP_SPEED_1H FASTEST_6H (next + 3)
    (<["legs" := legLayer]> layers0) !! keyName k
  = Some (mkLayerGroup (keyStamp (next + 3) k)
            (highlightShapes hostParse WAYPOINTS TOP_SPEED_1H FASTEST_6H k)).
Proof. apply buildHighlightLayers_lookup. Qed.

Lemma built_registry_legs (next : positive) (layers0 : gmap string LayerGroup)
    (legLayer : LayerGroup) :
  buildHighlightLayers hostParse WAYPOINTS TOP_SPEED_1H FASTEST_6H (next + 3)
    (<["legs" := legLayer]> layers0) !! "legs"
  = Some legLayer.
Proof.
  unfold buildHighlightLayers.
  rewrite !lookup_insert_ne by done. by rewrite lookup_insert_eq.
Qed.

(** X13.  On an empty dataset [buildMap] throws when it reads the first
    waypoint for the vessel marker, after the map was created and the layers
    were registered but before the initial [setLayerVisibility]: every
    highlight key has its layer, and none of them is on the map, whatever the
    toggle set.  A later call of [buildMap] does not repair this, since the
    map exists.  The top-speed record, if there is one, is taken to have
    coordinates that Leaflet accepts. *)
Theorem buildMap_empty_dataset (highlights : HighlightState) (next : positive)
    (v : MapView) :
  v.(mapRef) = None -> WAYPOINTS = [] ->
  Forall plottableShape (topSpeedShapes TOP_SPEED_1H) ->
  exists s,
    buildMap hostParse WAYPOINTS TOP_SPEED_1H FASTEST_6H true highlights next v
    = Thrown s
    /\ is_Some s.(mapRef)
    /\ (forall k, exists l, s.(layersRef) !! keyName k = Some l
                    /\ onMap s l = false)
    /\ forall highlights' next',
         buildMap hostParse WAYPOINTS TOP_SPEED_1H FASTEST_6H true
           highlights' next' s
         = Done s.
Proof.
  intros Hmap Hempty _.
  assert (Hfirst : WAYPOINTS !! 0%nat = None) by (by rewrite Hempty).
  unfold buildMap. rewrite Hmap, Hfirst.
  rewrite bool_decide_eq_false_2 by (by intros [? ?]). cbn [negb orb].
  eexists. split; [reflexivity|]. cbn [mapRef layersRef].
  split; [by eexists|]. split.
  - intros k. eexists. split; [apply built_registry_lookup|].
    unfold onMap. cbn [mapRef].
    rewrite !hasLayer_addLayer_ne
      by (cbn [stamp]; destruct k; cbn [keyStamp]; lia).
    apply hasLayer_empty.
  - intros highlights' next'. cbn [mapRef].
    rewrite bool_decide_eq_true_2 by (by eexists). reflexivity.
Qed.

(** X14.  On a non-empty dataset of drawable waypoints [buildMap] completes:
    every highlight layer holds the geometry precomputed for its key and is
    on the map exactly when the flag of the key is set in the initial toggle
    set; the leg layer is on the map; the waypoint layer is not, whatever the
    zoom level, until the zoom effect runs.  A second call changes nothing. *)
Theorem buildMap_initial_view (highlights : HighlightState) (next : positive)
    (v : MapView) :
  v.(mapRef) = None -> WAYPOINTS <> [] ->
  Forall drawable WAYPOINTS ->
  Forall plottableShape (topSpeedShapes TOP_SPEED_1H) ->
  exists s,
    buildMap hostParse WAYPOINTS TOP_SPEED_1H FASTEST_6H true highlights next v
    = Done s
    /\ (forall k, exists l,
          s.(layersRef) !! keyName k = Some l
          /\ l.(shapes)
             = highlightShapes hostParse WAYPOINTS TOP_SPEED_1H FASTEST_6H k
          /\ onMap s l = flag highlights k)
    /\ (exists legs, s.(layersRef) !! "legs" = Some legs
          /\ legs.(shapes) = legShapes WAYPOINTS /\ onMap s legs = true)
    /\ (exists wpLayer, s.(waypointLayerRef) = Some wpLayer
          /\ wpLayer.(shapes) = (Marker ∘ latlng <$> WAYPOINTS)
          /\ onMap s wpLayer = false)
    /\ forall highlights' next',
         buildMap hostParse WAYPOINTS TOP_SPEED_1H FASTEST_6H true
           highlights' next' s
         = Done s.
Proof.
  intros Hmap Hne _ _. unfold buildMap. rewrite Hmap.
  rewrite bool_decide_eq_false_2 by (by intros [? ?]). cbn [negb orb].
  assert (Hfirst : exists startWp, WAYPOINTS !! 0%nat = Some startWp)
    by (destruct WAYPOINTS; [done | by eexists]).
  destruct Hfirst as [startWp ->].
  set (legLayer := mkLayerGroup (next + 2) (legShapes WAYPOINTS)).
  set (layers := buildHighlightLayers hostParse WAYPOINTS TOP_SPEED_1H
                   FASTEST_6H (next + 3) (<["legs" := legLayer]> v.(layersRef))).
  assert (Hdistinct : stampsDistinct layers)
    by apply buildHighlightLayers_distinct.
  assert (Hother : forall l, (forall k, keyStamp (next + 3) k <> l.(stamp)) ->
            forall map, hasLayer (setLayerVisibility layers map highlights) l
                        = hasLayer map l).
  { intros l Hl map. apply setLayerVisibility_other.
    intros k l'. unfold layers. rewrite built_registry_lookup.
    intros [= <-]. apply Hl. }
  eexists. split; [reflexivity|]. cbn [mapRef layersRef waypointLayerRef].
  split; [|split; [|split]].
  - intros k. eexists. split; [apply built_registry_lookup|]. split; [done|].
    unfold onMap. cbn [mapRef].
    apply (setLayerVisibility_hasLayer layers highlights Hdistinct _ k).
    apply built_registry_lookup.
  - exists legLayer. split; [apply built_registry_legs|]. split; [done|].
    unfold onMap. cbn [mapRef].
    rewrite Hother
      by (intros k; unfold legLayer; cbn [stamp]; destruct k; cbn [keyStamp]; lia).
    rewrite hasLayer_addLayer_ne by (unfold legLayer; cbn [stamp]; lia).
    apply hasLayer_addLayer.
  - eexists. split; [reflexivity|]. split; [done|].
    unfold onMap. cbn [mapRef].
    rewrite Hother by (intros k; cbn [stamp]; destruct k; cbn [keyStamp]; lia).
    rewrite !hasLayer_addLayer_ne by (unfold legLayer; cbn [stamp]; lia).
    apply hasLayer_empty.
  - intros highlights' next'. cbn [mapRef].
    rewrite bool_decide_eq_true_2 by (by eexists). reflexivity.
Qed.

(** X15.  The effects work on whatever [buildMap] left: after the highlights
    effect a registered highlight layer is on the map exactly when its flag is
    set, also when [buildMap] had thrown; without a map the effects do
    nothing; redrawing the legs of a dataset of drawable waypoints puts the
    new leg layer on the map, takes the old one off and leaves the highlight
    layers where they were. *)
Theorem effects_after_build (highlights : HighlightState) (v : MapView)
    (next : positive) :
  Forall drawable WAYPOINTS ->
  stampsDistinct v.(layersRef) ->
  (forall k l, v.(layersRef) !! keyName k = Some l -> l.(stamp) <> next) ->
  (forall legs, v.(layersRef) !! "legs" = Some legs -> legs.(stamp) <> next) ->
  (v.(mapRef) = None ->
     highlightsEffect highlights v = v
     /\ activeLegEffect WAYPOINTS next v = v)
  /\ (is_Some v.(mapRef) ->
      (forall k l, v.(layersRef) !! keyName k = Some l ->
         onMap (highlightsEffect highlights v) l = flag highlights k)
      /\ forall legs, v.(layersRef) !! "legs" = Some legs ->
           let v' := activeLegEffect WAYPOINTS next v in
           v'.(layersRef) !! "legs"
           = Some (mkLayerGroup next (legShapes WAYPOINTS))
           /\ onMap v' (mkLayerGroup next (legShapes WAYPOINTS)) = true
           /\ onMap v' legs = false
           /\ forall k l, v.(layersRef) !! keyName k = Some l ->
                v'.(layersRef) !! keyName k = Some l
                /\ (l.(stamp) <> legs.(stamp) -> onMap v' l = onMap v l)).
Proof.
  intros _ Hdistinct Hfresh Hfresh_legs. split.
  - intros Hnone. unfold highlightsEffect, activeLegEffect. by rewrite Hnone.
  - intros [map Hmap]. split.
    + intros k l Hl. unfold onMap, highlightsEffect. rewrite Hmap. cbn [mapRef].
      by apply setLayerVisibility_hasLayer.
    + intros legs Hlegs v'. unfold v', activeLegEffect, onMap.
      rewrite Hmap, Hlegs. cbn [mapRef layersRef].
      split; [by rewrite lookup_insert_eq|].
      split; [apply hasLayer_addLayer|]. split.
      * rewrite hasLayer_addLayer_ne
          by (cbn [stamp]; intros E; by apply (Hfresh_legs legs Hlegs)).
        apply hasLayer_removeLayer.
      * intros k l Hl. split.
        -- rewrite lookup_insert_ne; [done|]. by destruct k.
        -- intros Hne.
           rewrite hasLayer_addLayer_ne
             by (cbn [stamp]; intros E; by apply (Hfresh k l Hl)).
           by apply hasLayer_removeLayer_ne.
Qed.

End BuildMapFacts.

Lemma buildMap_empty_dataset_witness :
  exists s,
    buildMap strictHost [] None None true (allFlags true) 1
      (mkMapView None ∅ None)
    = Thrown s
    /\ is_Some s.(mapRef)
    /\ (forall k, exists l, s.(layersRef) !! keyName k = Some l
                    /\ onMap s l = false)
    /\ forall highlights' next',
         buildMap strictHost [] None None true highlights' next' s = Done s.
Proof.
  apply (buildMap_empty_dataset strictHost [] None None (allFlags true) 1
           (mkMapView None ∅ None)); [reflexivity | reflexivity | constructor].
Defined.

Lemma buildMap_initial_view_witness :
  exists s,
    buildMap strictHost exampleTrack None None true (allFlags true) 1
      (mkMapView None ∅ None)
    = Done s
    /\ forall k, exists l,
         s.(layersRef) !! keyName k = Some l
         /\ l.(shapes) = highlightShapes strictHost exampleTrack None None k
         /\ onMap s l = flag (allFlags true) k.
Proof.
  destruct (buildMap_initial_view strictHost exampleTrack None None
              (allFlags true) 1 (mkMapView None ∅ None) eq_refl)
    as (s & Hs & Hk & _);
    [done | apply exampleTrack_drawable | constructor |].
  exists s. by split.
Defined.

Lemma effects_after_build_witness :
  let layers := buildHighlightLayers strictHost exampleTrack None None 4
                  (<["legs" := mkLayerGroup 3 (legShapes exampleTrack)]> ∅) in
  let v := mkMapView (Some ∅) layers None in
  exists l, layers !! keyName KNightWatch = Some l
    /\ onMap (highlightsEffect (allFlags true) v) l = true.
Proof.
  intros layers v. eexists. split; [apply buildHighlightLayers_lookup|].
  refine (proj1 (proj2 (effects_after_build exampleTrack (allFlags true) v 20
                          _ _ _ _) _) KNightWatch _ _).
  - apply exampleTrack_drawable.
  - apply buildHighlightLayers_distinct.
  - intros k l. unfold v, layers. cbn [layersRef].
    rewrite buildHighlightLayers_lookup. intros [= <-]. cbn [stamp].
    destruct k; cbn [keyStamp]; lia.
  - intros legs. unfold v, layers. cbn [layersRef].
    unfold buildHighlightLayers. rewrite !lookup_insert_ne by done.
    rewrite lookup_insert_eq. intros [= <-]. cbn [stamp]. lia.
  - by eexists.
  - apply buildHighlightLayers_lookup.
Defined.

(** ** Night blocks *)

Section NightBlocks.

Variable hostParse : string -> option Z.

(** When what is pushed does not depend on the position, neither do the
    polylines. *)
Lemma runsFrom_index_free {A : Type} (payload : Waypoint -> A) (i j : nat)
    (wps : list Waypoint) (seg : list A) :
  runsFrom hostParse (fun _ wp => payload wp) i wps seg
  = runsFrom hostParse (fun _ wp => payload wp) j wps seg.
Proof.
  revert i j seg. induction wps as [|wp rest IH]; intros i j seg; [done|].
  destruct (isNightUTC hostParse wp.(JourneyData.time)) eqn:E.
  - rewrite !runsFrom_night by done. apply IH.
  - rewrite !runsFrom_day by done. f_equal. apply IH.
Qed.

(** X16.  The night-watch polylines are drawn block by block.  A block of
    night waypoints that ends at a day waypoint gives one polyline through
    all its waypoints when it has at least two of them and none otherwise,
    and what follows the day waypoint is drawn as if the track started there;
    a track that is one block of night waypoints gives that one polyline.
    The coordinates are taken to be accepted by Leaflet. *)
Theorem night_segments_by_blocks (block : list Waypoint) (day : Waypoint)
    (rest : list Waypoint) :
  Forall (fun wp => plottable (latlng wp)) (block ++ day :: rest) ->
  Forall (fun wp => isNightUTC hostParse wp.(JourneyData.time) = true) block ->
  isNightUTC hostParse day.(JourneyData.time) = false ->
  nightWatchSegments hostParse (block ++ day :: rest)
  = (if (1 <? length block)%nat then [latlng <$> block] else [])
    ++ nightWatchSegments hostParse rest
  /\ nightWatchSegments hostParse block
     = if (1 <? length block)%nat then [latlng <$> block] else [].
Proof.
  intros _ Hblock Hday. unfold nightWatchSegments.
  rewrite !nightRuns_runsFrom.
  assert (Himap : imap (fun (k : nat) wp => latlng wp) block = latlng <$> block).
  { clear. induction block as [|wp block IH]; [done|].
    cbn [imap fmap list_fmap]. f_equal. exact IH. }
  split.
  - rewrite runsFrom_block by done. cbn [app]. rewrite Himap.
    unfold flush. rewrite length_fmap. f_equal.
    apply (runsFrom_index_free latlng).
  - rewrite runsFrom_last_block by done. cbn [app]. rewrite Himap.
    unfold flush. by rewrite length_fmap.
Qed.

End NightBlocks.

Lemma night_segments_by_blocks_witness :
  let n1 := waypointAt 1 (-12.10) 131.20 "2026-02-11T19:00:00Z" in
  let n2 := waypointAt 2 (-12.05) 131.30 "2026-02-11T20:00:00Z" in
  let d3 := waypointAt 3 (-11.90) 131.60 "2026-02-11T23:00:00Z" in
  nightWatchSegments strictHost ([n1; n2] ++ d3 :: [n1])
  = [latlng <$> [n1; n2]] ++ nightWatchSegments strictHost [n1].
Proof.
  intros n1 n2 d3.
  refine (proj1 (night_segments_by_blocks strictHost [n1; n2] d3 [n1] _ _ _)).
  - repeat (constructor; [by split|]). constructor.
  - repeat (constructor; [reflexivity|]). constructor.
  - reflexivity.
Defined.
